(** * The photo preparation pipeline of script.js

    A shallow embedding of the browser script that validates a selection of
    photos, converts HEIC/HEIF files to JPEG, downsizes wide images and
    uploads the result, followed by the properties proved about it.

    Layout:
    - [JS]: the language-level primitives the script relies on (string
      tests, regular expressions, [Math.round] on doubles);
    - the browser objects ([Blob], [File], [Image], [Canvas]) and the
      platform capabilities the script calls;
    - the page state and a state-and-exception monad for the handlers;
    - the functions of the script, under their own names;
    - [Demo]: a small concrete platform on which the script can be run;
    - the notions the properties are stated with;
    - the properties, from the string tests and the arithmetic of
      doubles up to the two listeners;
    - [Examples], [MoreExamples]: the script and the theorems at concrete
      inputs.

    The two listeners are [async] functions.  [onChange] and [onSubmit]
    are the listeners run from the event to their end, nothing else being
    handled while they wait for the conversion, the decoding, the
    encoding or the request.  The [change] listener is also given piece
    by piece, cut at its [await] ([onChange_start], [onChange_resume]),
    and run amid the other events of the page ([onChange_amid]); run with
    nothing else happening, the pieces make up [onChange]. *)

From Stdlib Require Import ZArith List String Ascii Bool Lia.
From Stdlib Require Import Floats DecimalString.
Import ListNotations.

Set Warnings "-inexact-float".

Local Open Scope string_scope.
Local Open Scope Z_scope.

(* ================================================================== *)
(** * JavaScript primitives *)

Module JS.

(** ** Strings

    A JavaScript string is a sequence of UTF-16 code units.  The script
    only ever compares strings against ASCII text ([image/], [.heic],
    [.heif], the two HEIC MIME types), so a string is modelled by the
    sequence of its UTF-8 bytes: an ASCII character is one byte, and no
    byte of a longer character is ASCII. *)

(** [String.prototype.startsWith]. *)
Definition startsWith (s searchString : string) : bool :=
  String.prefix searchString s.

(** [Array.prototype.includes] on an array of strings. *)
Fixpoint includes (arr : list string) (x : string) : bool :=
  match arr with
  | [] => false
  | y :: arr' => String.eqb y x || includes arr' x
  end.

(** Decimal rendering of an integer inside a template literal. *)
Definition toString (z : Z) : string := NilZero.string_of_int (Z.to_int z).

(** ** Regular expressions

    The fragment used by the script: pattern characters, sequencing,
    alternation and the end-of-input assertion [$] (no [m] flag). *)

Inductive regex : Type :=
| Empty : regex
| Char : ascii -> regex
| Seq : regex -> regex -> regex
| Alt : regex -> regex -> regex
| EndOfInput : regex.

(** A pattern that is a run of literal characters. *)
Fixpoint literal (s : string) : regex :=
  match s with
  | EmptyString => Empty
  | String c s' => Seq (Char c) (literal s')
  end.

Definition toUpperCase (c : ascii) : ascii :=
  let n := N_of_ascii c in
  if ((97 <=? n) && (n <=? 122))%N then ascii_of_N (n - 32) else c.

(** [Canonicalize] of the specification, for a pattern without the [u]
    flag: with [ignoreCase] a character is compared through its upper
    case.  A non-ASCII character whose upper case is ASCII is left alone
    by the language, so on the ASCII patterns above only the ASCII
    letters fold. *)
Definition canonicalize (ignoreCase : bool) (c : ascii) : ascii :=
  if ignoreCase then toUpperCase c else c.

(** Backtracking matcher: [matchAt i r s k] matches [r] at the head of
    [s] and hands what is left to the continuation [k]; the result is the
    input left after the whole match. *)
Fixpoint matchAt (i : bool) (r : regex) (s : string)
    (k : string -> option string) : option string :=
  match r with
  | Empty => k s
  | Char c =>
      match s with
      | String a s' =>
          if Ascii.eqb (canonicalize i a) (canonicalize i c) then k s' else None
      | EmptyString => None
      end
  | Seq r1 r2 => matchAt i r1 s (fun s' => matchAt i r2 s' k)
  | Alt r1 r2 =>
      match matchAt i r1 s k with
      | Some rest => Some rest
      | None => matchAt i r2 s k
      end
  | EndOfInput =>
      match s with
      | EmptyString => k s
      | String _ _ => None
      end
  end.

(** [RegExp.prototype.exec] from index 0: the leftmost match, returned as
    the text before the match and the text after it. *)
Fixpoint exec (i : bool) (r : regex) (s : string) : option (string * string) :=
  match matchAt i r s Some with
  | Some rest => Some (EmptyString, rest)
  | None =>
      match s with
      | EmptyString => None
      | String a s' =>
          match exec i r s' with
          | Some (before, rest) => Some (String a before, rest)
          | None => None
          end
      end
  end.

(** [RegExp.prototype.test]. *)
Definition test (i : bool) (r : regex) (s : string) : bool :=
  match exec i r s with Some _ => true | None => false end.

(** [String.prototype.replace] with a non-global pattern and a
    replacement text free of [$] references. *)
Definition replace (i : bool) (r : regex) (s replacement : string) : string :=
  match exec i r s with
  | Some (before, rest) => before ++ replacement ++ rest
  | None => s
  end.

(** ** Numbers

    Every JavaScript number is an IEEE 754 binary64 value; they are
    modelled by the primitive floats, whose operations are the IEEE
    ones.  Integers that stay far below 2^53 (sizes, pixel counts, list
    lengths) are kept in [Z] and turned into doubles where the script
    divides or multiplies them. *)

(** The double nearest to an integer (ties to even). *)
Definition Number (z : Z) : float :=
  SF2Prim (binary_normalize FloatOps.prec FloatOps.emax z 0 false).

(** [Math.round]: the integer nearest to [x], a tie going toward
    positive infinity.  The result is given as an integer; NaN and the
    infinities, which [Math.round] returns unchanged, are sent to 0 (the
    script never rounds one). *)
Definition Math_round (x : float) : Z :=
  match Prim2SF x with
  | S754_finite s m e =>
      let n := if s then Z.neg m else Z.pos m in
      if 0 <=? e then n * 2 ^ e
      else (2 * n + 2 ^ (- e)) / 2 ^ (1 - e)
  | _ => 0
  end.

End JS.

Import JS.

(* ================================================================== *)
(** * Browser objects *)

(** The bytes of a blob or file. *)
Definition bytes : Type := list Byte.byte.

(** A [Blob].  [blob_size] is the byte length the platform reports; it is
    kept beside the payload so that a file of many megabytes can be
    described without spelling its bytes out. *)
Record Blob : Type := mkBlob {
  blob_size : Z;
  blob_type : string;
  blob_data : bytes
}.

(** A [File]: a blob with a name and a modification time (milliseconds
    since the epoch). *)
Record File : Type := mkFile {
  name : string;
  type : string;
  size : Z;
  lastModified : Z;
  data : bytes
}.

(** The [data:] URL a [FileReader] produces for a file: its media type and
    its bytes. *)
Record DataURL : Type := mkDataURL {
  mediaType : string;
  payload : bytes
}.

(** A loaded [Image] element: its source and its intrinsic dimensions. *)
Record Image : Type := mkImage {
  src : DataURL;
  width : Z;
  height : Z
}.

(** One [drawImage(image, dx, dy, dWidth, dHeight)] call. *)
Record DrawImage : Type := mkDrawImage {
  drawn_image : Image;
  dx : Z;
  dy : Z;
  dWidth : Z;
  dHeight : Z
}.

(** A [canvas] element: its bitmap dimensions and what was drawn on it,
    oldest first. *)
Record Canvas : Type := mkCanvas {
  canvas_width : Z;
  canvas_height : Z;
  drawn : list DrawImage
}.

(** [document.createElement('canvas')]: 300 by 150 and blank. *)
Definition createCanvas : Canvas := mkCanvas 300 150 [].

Definition set_canvas_width (c : Canvas) (w : Z) : Canvas :=
  mkCanvas w (canvas_height c) (drawn c).

Definition set_canvas_height (c : Canvas) (h : Z) : Canvas :=
  mkCanvas (canvas_width c) h (drawn c).

Definition drawImage (c : Canvas) (image : Image) (x y w h : Z) : Canvas :=
  mkCanvas (canvas_width c) (canvas_height c)
           (drawn c ++ [mkDrawImage image x y w h]).

(** The single part handed to [new File([part], ...)]: a blob, or
    [undefined] ([None]), which the constructor turns into the nine
    characters of the word. *)
Definition part_size (part : option Blob) : Z :=
  match part with
  | Some b => blob_size b
  | None => 9
  end.

Definition part_data (part : option Blob) : bytes :=
  match part with
  | Some b => blob_data b
  | None => list_byte_of_string "undefined"
  end.

(** [new File([part], fileName, { type, lastModified })]. *)
Definition new_File (part : option Blob) (fileName : string)
    (ty : string) (modified : Z) : File :=
  mkFile fileName ty (part_size part) modified (part_data part).

(** A thrown value: the message of the [Error], or the text of whatever a
    capability rejected with. *)
Definition Error : Type := string.

(** What [heic2any] resolves with: one blob, or an array of blobs. *)
Inductive HeicOutput : Type :=
| OneBlob : Blob -> HeicOutput
| BlobArray : list Blob -> HeicOutput.

(** The parsed body of an upload response, as far as the script looks at
    it: [responseText] empty, not JSON, or an object of which the
    truthiness of [success] and the [error] text (when truthy) are read. *)
Inductive ResponseBody : Type :=
| NoBody : ResponseBody
| NotJSON : Error -> ResponseBody
| Body : bool -> option string -> ResponseBody.

(** How an [XMLHttpRequest] ends: [readyState] reaches [DONE] with a
    status and a body, or [onerror] fires. *)
Inductive XhrOutcome : Type :=
| Done : Z -> ResponseBody -> XhrOutcome
| NetworkError : XhrOutcome.

(** One [formData.append(field, file, fileName)]. *)
Record FormEntry : Type := mkFormEntry {
  field : string;
  entry_file : File;
  entry_name : string
}.

(** ** The platform

    Everything the script asks of the browser and of the heic2any
    library, as functions of what the script passes in.
    - [heic2any file toType quality]: the conversion, or what it rejects
      with;
    - [readAsDataURL file]: the [FileReader] result, [None] when
      [onerror] fires;
    - [decode url]: the intrinsic width and height of the image loaded
      from [url], [None] when the image element fires [onerror];
    - [toBlob canvas type quality]: the encoded canvas, [None] when the
      callback receives [null];
    - [now n]: what the [n]-th call of [Date.now()] returns;
    - [send url form]: how the request carrying [form] ends. *)
Record Platform : Type := mkPlatform {
  heic2any : File -> string -> float -> Error + HeicOutput;
  readAsDataURL : File -> option DataURL;
  decode : DataURL -> option (Z * Z);
  toBlob : Canvas -> string -> float -> option Blob;
  now : nat -> Z;
  send : string -> list FormEntry -> XhrOutcome
}.

(* ================================================================== *)
(** * Page state *)

(** What [setMessage] shows: the text and the kind ([error], [success] or
    empty). *)
Definition Message : Type := (string * string)%type.

(** The state the handlers read and write.
    - [selectedFiles]: the global of that name;
    - [messages]: every [setMessage] call so far, oldest first (the page
      shows the last one);
    - [console]: the [console.error] lines;
    - [previews]: the files handed to the preview reader since the last
      [resetPreview];
    - [encoded]: the canvases handed to [toBlob];
    - [requests]: the forms handed to [xhr.send];
    - [ticks]: how many times [Date.now()] was called.
    The enabled flags of the button and of the input and the progress
    bar carry no decision and are left out. *)
Record World : Type := mkWorld {
  selectedFiles : list File;
  messages : list Message;
  console : list string;
  previews : list File;
  encoded : list Canvas;
  requests : list (list FormEntry);
  ticks : nat
}.

Definition initial : World := mkWorld [] [] [] [] [] [] 0.

(** The message on the page. *)
Definition messageEl (w : World) : Message := last (messages w) ("", "").

(** ** Handlers as state transformers that may throw *)

Inductive Result (A : Type) : Type :=
| Ok : A -> Result A
| Throw : Error -> Result A.

Arguments Ok {A} _.
Arguments Throw {A} _.

Definition M (A : Type) : Type := World -> Result A * World.

Definition ret {A : Type} (a : A) : M A := fun w => (Ok a, w).

Definition throw {A : Type} (e : Error) : M A := fun w => (Throw e, w).

Definition bind {A B : Type} (m : M A) (f : A -> M B) : M B :=
  fun w =>
    match m w with
    | (Ok a, w') => f a w'
    | (Throw e, w') => (Throw e, w')
    end.

(** [try { m } catch (e) { handler e }]. *)
Definition try_catch {A : Type} (m : M A) (handler : Error -> M A) : M A :=
  fun w =>
    match m w with
    | (Ok a, w') => (Ok a, w')
    | (Throw e, w') => handler e w'
    end.

Declare Scope js_scope.
Delimit Scope js_scope with js.

Notation "x <- m ;; k" := (bind m (fun x => k))
  (at level 61, m at next level, right associativity) : js_scope.
Notation "m ;; k" := (bind m (fun _ => k))
  (at level 61, right associativity) : js_scope.

Local Open Scope js_scope.

Definition gets {A : Type} (f : World -> A) : M A := fun w => (Ok (f w), w).

Definition modify (f : World -> World) : M unit := fun w => (Ok tt, f w).

Definition with_selectedFiles (l : list File) (w : World) : World :=
  mkWorld l (messages w) (console w) (previews w) (encoded w)
          (requests w) (ticks w).

Definition with_message (m : Message) (w : World) : World :=
  mkWorld (selectedFiles w) (messages w ++ [m]) (console w) (previews w)
          (encoded w) (requests w) (ticks w).

Definition with_console (line : string) (w : World) : World :=
  mkWorld (selectedFiles w) (messages w) (console w ++ [line]) (previews w)
          (encoded w) (requests w) (ticks w).

Definition with_previews (l : list File) (w : World) : World :=
  mkWorld (selectedFiles w) (messages w) (console w) l (encoded w)
          (requests w) (ticks w).

Definition with_encoded (c : Canvas) (w : World) : World :=
  mkWorld (selectedFiles w) (messages w) (console w) (previews w)
          (encoded w ++ [c]) (requests w) (ticks w).

Definition with_request (form : list FormEntry) (w : World) : World :=
  mkWorld (selectedFiles w) (messages w) (console w) (previews w)
          (encoded w) (requests w ++ [form]) (ticks w).

Definition with_tick (w : World) : World :=
  mkWorld (selectedFiles w) (messages w) (console w) (previews w)
          (encoded w) (requests w) (S (ticks w)).

(** [console.error(label, ...)]: the label is what is recorded. *)
Definition console_error (label : string) : M unit :=
  modify (with_console label).

(* ================================================================== *)
(** * The script *)

Definition MAX_FILES : Z := 10.
Definition MAX_FILE_SIZE_BYTES : Z := 20 * 1024 * 1024.
Definition MAX_WIDTH : Z := 1920.

Definition HEIC_TYPES : list string := ["image/heic"; "image/heif"].

Definition API_BASE_URL : string := "https://wedding-backend-e34z.onrender.com".

(** [/\.heic$/i], [/\.heif$/i] and [/\.(heic|heif)$/i]. *)
Definition re_heic : regex := Seq (literal ".heic") EndOfInput.
Definition re_heif : regex := Seq (literal ".heif") EndOfInput.
Definition re_heic_or_heif : regex :=
  Seq (Char ".") (Seq (Alt (literal "heic") (literal "heif")) EndOfInput).

(** The double quote placed around a file name in a message. *)
Definition quote : string := String "034"%char EmptyString.

(** The texts built from a template literal. *)
Definition text_max_files : string :=
  "You can select a maximum of " ++ toString MAX_FILES ++ " photos.".
Definition text_too_large (file : File) : string :=
  "Each photo must be smaller than 20MB. " ++ quote ++ name file ++ quote
    ++ " is too large.".
Definition text_no_preview (file : File) : string :=
  "Could not preview " ++ quote ++ name file ++ quote
    ++ ". It may still upload.".
Definition text_upload_failed : string :=
  "Fotoğraflarınızı yüklerken birşeyler ters gitti. Lütfen tekrar deneyin.".

Definition isHeicFile (file : File) : bool :=
  includes HEIC_TYPES (type file)
  || test true re_heic (name file)
  || test true re_heif (name file).

(** The height given to the canvas for an image wider than [MAX_WIDTH]:
    [scale = MAX_WIDTH / width], then [Math.round(height * scale)], both
    operations in double precision. *)
Definition scaledHeight (w h : Z) : Z :=
  let scale := (Number MAX_WIDTH / Number w)%float in
  Math_round (Number h * scale)%float.

(** [Array.isArray(blob) ? blob[0] : blob]; indexing an empty array gives
    [undefined]. *)
Definition first_blob (blob : HeicOutput) : option Blob :=
  match blob with
  | BlobArray l => nth_error l 0
  | OneBlob b => Some b
  end.

Section Script.

Variable P : Platform.

Definition Date_now : M Z := fun w => (Ok (now P (ticks w)), with_tick w).

Definition setMessage (text kind : string) : M unit :=
  modify (with_message (text, kind)).

Definition resetPreview : M unit := modify (with_previews []).

(** Awaiting the [heic2any] promise. *)
Definition await_heic2any (file : File) (toType : string) (quality : float)
    : M HeicOutput :=
  match heic2any P file toType quality with
  | inl e => throw e
  | inr out => ret out
  end.

Definition convertHeicToJpeg (file : File) : M File :=
  blob <- await_heic2any file "image/jpeg" 0.9%float ;;
  let jpegBlob := first_blob blob in
  let baseName := replace true re_heic_or_heif (name file) ".jpg" in
  t <- Date_now ;;
  ret (new_File jpegBlob baseName "image/jpeg" t).

Definition ensureImageCanLoad (file : File) : M File :=
  if isHeicFile file then convertHeicToJpeg file else ret file.

Definition readFileAsImage (file : File) : M Image :=
  match readAsDataURL P file with
  | None => throw "Failed to read file."
  | Some url =>
      match decode P url with
      | None => throw "Failed to load image."
      | Some (w, h) => ret (mkImage url w h)
      end
  end.

(** Awaiting the promise built around [canvas.toBlob]. *)
Definition await_toBlob (canvas : Canvas) (loadableFile : File) : M File :=
  modify (with_encoded canvas) ;;
  match toBlob P canvas "image/jpeg" 0.85%float with
  | None => throw "Image compression failed."
  | Some blob =>
      t <- Date_now ;;
      ret (new_File (Some blob) (name loadableFile) "image/jpeg" t)
  end.

Definition compressImage (file : File) : M File :=
  loadableFile <- ensureImageCanLoad file ;;
  image <- readFileAsImage loadableFile ;;
  if width image <=? MAX_WIDTH then ret loadableFile
  else
    let w := MAX_WIDTH in
    let h := scaledHeight (width image) (height image) in
    let canvas := createCanvas in
    let canvas := set_canvas_width canvas w in
    let canvas := set_canvas_height canvas h in
    let canvas := drawImage canvas image 0 0 w h in
    await_toBlob canvas loadableFile.

(** The loop of [prepareCompressedFiles]; [compressedFiles] is the array
    filled so far. *)
Fixpoint prepare_loop (files compressedFiles : list File) : M (list File) :=
  match files with
  | [] => ret compressedFiles
  | file :: rest =>
      compressed <-
        try_catch (compressImage file)
          (fun error =>
             console_error "Compression error:" ;;
             setMessage
               "One of the images could not be processed. Please try different files."
               "error" ;;
             throw error) ;;
      prepare_loop rest (compressedFiles ++ [compressed])
  end.

Definition prepareCompressedFiles (files : list File) : M (list File) :=
  prepare_loop files [].

(** ** The [change] listener of the file input *)

Definition push_selected (file : File) : M unit :=
  modify (fun w => with_selectedFiles (selectedFiles w ++ [file]) w).

(** Starting the preview read of a file. *)
Definition preview (file : File) : M unit :=
  modify (fun w => with_previews (previews w ++ [file]) w).

Definition isValidImage (file : File) : bool :=
  startsWith (type file) "image/" || isHeicFile file.

(** One turn of the loop over [limitedFiles]. *)
Definition change_step (file : File) : M unit :=
  if negb (isValidImage file) then
    setMessage "Only image files are allowed." "error"
  else if size file >? MAX_FILE_SIZE_BYTES then
    setMessage (text_too_large file) "error"
  else
    push_selected file ;;
    try_catch
      (loadableFile <- ensureImageCanLoad file ;; preview loadableFile)
      (fun err =>
         console_error "Preview error for" ;;
         setMessage (text_no_preview file) "error").

Fixpoint change_loop (limitedFiles : list File) : M unit :=
  match limitedFiles with
  | [] => ret tt
  | file :: rest => change_step file ;; change_loop rest
  end.

(** [files.slice(0, MAX_FILES)]. *)
Definition slice_MAX_FILES (files : list File) : list File :=
  firstn (Z.to_nat MAX_FILES) files.

(** The listener from the event to its end, when nothing else is handled
    while it waits for a conversion; [onChange_amid] below is the listener
    amid other events. *)
Definition onChange (files : list File) : M unit :=
  modify (with_selectedFiles []) ;;
  resetPreview ;;
  setMessage "" "" ;;
  if Z.of_nat (List.length files) =? 0 then ret tt
  else
    (if Z.of_nat (List.length files) >? MAX_FILES
     then setMessage text_max_files "error"
     else ret tt) ;;
    let limitedFiles := slice_MAX_FILES files in
    change_loop limitedFiles ;;
    selected <- gets selectedFiles ;;
    if (Z.of_nat (List.length selected) =? 0) && (Z.of_nat (List.length files) >? 0)
    then setMessage "No valid images selected. Please choose different files."
                    "error"
    else ret tt.

(** ** The [submit] listener of the form *)

(** The promise around the [XMLHttpRequest].  On a network failure the
    request first reaches [DONE] with status 0 and no body, so
    [onreadystatechange] rejects with the generic failure before
    [onerror] replaces the message. *)
Definition upload (formData : list FormEntry) : M unit :=
  modify (with_request formData) ;;
  match send P (API_BASE_URL ++ "/upload") formData with
  | Done status (NotJSON e) =>
      setMessage
        "An unexpected error occurred while processing the server response."
        "error" ;;
      throw e
  | Done status (Body true err) =>
      if (200 <=? status) && (status <? 300) then
        setMessage "Teşekkürler! Fotoğraflarınız başarıyla yüklendi." "success"
      else
        let errorMessage :=
          match err with Some e => e | None => text_upload_failed end in
        setMessage errorMessage "error" ;;
        throw errorMessage
  | Done status (Body false err) =>
      let errorMessage :=
        match err with Some e => e | None => text_upload_failed end in
      setMessage errorMessage "error" ;;
      throw errorMessage
  | Done status NoBody =>
      setMessage text_upload_failed "error" ;;
      throw text_upload_failed
  | NetworkError =>
      setMessage text_upload_failed "error" ;;
      setMessage
        "Could not reach the server. Please check your connection and try again."
        "error" ;;
      throw text_upload_failed
  end.

Definition onSubmit : M unit :=
  selected <- gets selectedFiles ;;
  if Z.of_nat (List.length selected) =? 0 then
    setMessage "Please select at least one photo." "error"
  else
    setMessage "" "" ;;
    try_catch
      (compressedFiles <- prepareCompressedFiles selected ;;
       let formData :=
         map (fun file => mkFormEntry "photos" file (name file))
             compressedFiles in
       upload formData ;;
       modify (with_selectedFiles []) ;;
       resetPreview)
      (fun error => console_error "Upload error:").

End Script.

(** ** The [change] listener between two waits

    The listener is an [async] function with one [await], on
    [ensureImageCanLoad(file)], reached once for each file that passes
    the checks, after the file is pushed on the selection.  There the
    listener is suspended; the file input is still enabled, so other
    listeners may run before it is resumed.  For a HEIC file the wait
    lasts as long as the conversion; for any other file the promise is
    settled already and the browser resumes the listener before it
    handles another event.  [onChange] above is the listener when nothing
    else happens during its waits; here it is cut at its [await] into the
    pieces that run without interruption. *)

(** A listener suspended at its [await]: the file whose
    [ensureImageCanLoad] is awaited, the files of [limitedFiles] still to
    visit, and [files]. *)
Record Suspended : Type := mkSuspended {
  pending : File;
  remaining : list File;
  chosen : list File
}.

Section Waits.

Variable P : Platform.

(** The end of the listener, after the loop. *)
Definition change_end (files : list File) : M unit :=
  selected <- gets selectedFiles ;;
  if (Z.of_nat (List.length selected) =? 0) && (Z.of_nat (List.length files) >? 0)
  then setMessage "No valid images selected. Please choose different files."
                  "error"
  else ret tt.

(** The loop from [limitedFiles] on, up to the next [await] or to the end
    of the listener. *)
Fixpoint change_until (files limitedFiles : list File) : M (option Suspended) :=
  match limitedFiles with
  | [] => change_end files ;; ret None
  | file :: rest =>
      if negb (isValidImage file) then
        setMessage "Only image files are allowed." "error" ;;
        change_until files rest
      else if size file >? MAX_FILE_SIZE_BYTES then
        setMessage (text_too_large file) "error" ;;
        change_until files rest
      else
        push_selected file ;;
        ret (Some (mkSuspended file rest files))
  end.

(** The listener from the event to its first [await]. *)
Definition onChange_start (files : list File) : M (option Suspended) :=
  modify (with_selectedFiles []) ;;
  resetPreview ;;
  setMessage "" "" ;;
  if Z.of_nat (List.length files) =? 0 then ret None
  else
    (if Z.of_nat (List.length files) >? MAX_FILES
     then setMessage text_max_files "error"
     else ret tt) ;;
    change_until files (slice_MAX_FILES files).

(** The listener from the moment it is resumed to its next [await]: what
    [ensureImageCanLoad] gives, the preview or the [catch], and the loop
    again. *)
Definition onChange_resume (s : Suspended) : M (option Suspended) :=
  try_catch
    (loadableFile <- ensureImageCanLoad P (pending s) ;; preview loadableFile)
    (fun err =>
       console_error "Preview error for" ;;
       setMessage (text_no_preview (pending s)) "error") ;;
  change_until (chosen s) (remaining s).

(** The listener run to its end.  [others] lists what else happens on
    the page while the listener is suspended, one entry per [await], in
    order; nothing happens during those past the end of [others].  The
    listener is suspended at most once per file of [limitedFiles], so
    [rounds] need not exceed [MAX_FILES]; the result tells whether the
    listener ended. *)
Fixpoint settle (rounds : nat) (others : list (World -> World))
    (s : option Suspended) : M bool :=
  match s with
  | None => ret true
  | Some waiting =>
      match rounds with
      | O => ret false
      | S rounds' =>
          modify (hd (fun w => w) others) ;;
          next <- onChange_resume waiting ;;
          settle rounds' (tl others) next
      end
  end.

Definition onChange_amid (others : list (World -> World)) (files : list File)
    : M bool :=
  s <- onChange_start files ;;
  settle (Z.to_nat MAX_FILES) others s.

End Waits.

(* ================================================================== *)
(** * A concrete platform

    A small platform on which the script can be run.  A picture is four
    bytes, the width then the height, each on two bytes with the high
    byte first; any other payload does not decode.  The converter keeps
    the payload and fails on an empty file; the encoder refuses a canvas
    with an empty side; the clock advances by one millisecond per
    reading; the server accepts every upload. *)

Module Demo.

Definition byte_of (z : Z) : Byte.byte :=
  match Byte.of_N (Z.to_N (z mod 256)) with
  | Some b => b
  | None => Byte.x00
  end.

Definition Z_of_byte (b : Byte.byte) : Z := Z.of_N (Byte.to_N b).

Definition picture (w h : Z) : bytes :=
  [byte_of (w / 256); byte_of w; byte_of (h / 256); byte_of h].

Definition dimensions (d : bytes) : option (Z * Z) :=
  match d with
  | [w1; w0; h1; h0] =>
      Some (256 * Z_of_byte w1 + Z_of_byte w0,
            256 * Z_of_byte h1 + Z_of_byte h0)
  | _ => None
  end.

Definition platform : Platform := {|
  heic2any file toType quality :=
    match data file with
    | [] => inl "ERR_LIBHEIF format not supported"
    | _ => inr (OneBlob (mkBlob (size file) toType (data file)))
    end;
  readAsDataURL file := Some (mkDataURL (type file) (data file));
  decode url := dimensions (payload url);
  toBlob canvas ty quality :=
    if (canvas_width canvas <=? 0) || (canvas_height canvas <=? 0) then None
    else Some (mkBlob 4 ty
                 (picture (canvas_width canvas) (canvas_height canvas)));
  now n := 1700000000000 + Z.of_nat n;
  send url form := Done 200 (Body true None)
|}.

(** A file holding a [w] by [h] picture. *)
Definition photo (fileName ty : string) (w h : Z) : File :=
  mkFile fileName ty 4 1600000000000 (picture w h).

(** The image element the platform loads from such a file. *)
Definition loaded (ty : string) (w h : Z) : Image :=
  mkImage (mkDataURL ty (picture w h)) w h.

Definition small : File := photo "small.jpg" "image/jpeg" 800 600.
Definition landscape : File := photo "landscape.jpg" "image/jpeg" 3000 2000.
Definition tall : File := photo "tall.jpg" "image/jpeg" 1000 3000.
Definition sliver : File := photo "sliver.jpg" "image/jpeg" 2816 11.
Definition iphone : File := photo "photo.heic" "" 4032 3024.

(** A file that is not a picture, and two files above 20 MiB. *)
Definition broken : File := mkFile "broken.png" "image/png" 0 1600000000000 [].
Definition scan : File :=
  mkFile "scan.pdf" "application/pdf" 30000000 1600000000000 [].
Definition poster : File :=
  mkFile "poster.png" "image/png" 25000000 1600000000000 (picture 4000 3000).

(** Twelve small photos, named by their rank. *)
Definition dozen : list File :=
  map (fun n => photo (toString n ++ ".jpg") "image/jpeg" 800 600)
      [1; 2; 3; 4; 5; 6; 7; 8; 9; 10; 11; 12].

(** Ten HEIC photos, named by their rank. *)
Definition album : list File :=
  map (fun n => photo (toString n ++ ".heic") "image/heic" 800 600)
      [1; 2; 3; 4; 5; 6; 7; 8; 9; 10].

(** A page on which [files] are selected. *)
Definition selecting (files : list File) : World :=
  with_selectedFiles files initial.

(** The same platform in front of a server that answers 500 with
    [{"success": false, "error": "disk full"}]. *)
Definition full_disk : Platform :=
  mkPlatform (heic2any platform) (readAsDataURL platform) (decode platform)
             (toBlob platform) (now platform)
             (fun url form => Done 500 (Body false (Some "disk full"))).

(** A file with a HEIC name that the converter cannot read. *)
Definition unreadable : File :=
  mkFile "IMG_0042.HEIC" "" 0 1600000000000 [].

(** A HEIC photo declared by its type alone. *)
Definition typed_heic : File := photo "IMG_0043" "image/heic" 800 600.

End Demo.

(* ================================================================== *)
(** * Notions used to state the properties *)

(** ** Proprietary formats, as the specification words them *)

Definition toLowerCase (c : ascii) : ascii :=
  let n := N_of_ascii c in
  if ((65 <=? n) && (n <=? 90))%N then ascii_of_N (n + 32) else c.

Fixpoint lowercase (s : string) : string :=
  match s with
  | EmptyString => EmptyString
  | String c s' => String (toLowerCase c) (lowercase s')
  end.

(** [s] ends in [ext], letter case set aside. *)
Definition ends_with_ignoring_case (s ext : string) : Prop :=
  exists stem tail, s = stem ++ tail /\ lowercase tail = lowercase ext.

(** The detection rule of the specification: a declared type in the
    proprietary set, or a name ending in a proprietary extension. *)
Definition proprietary_format (file : File) : Prop :=
  In (type file) ["image/heic"; "image/heif"]
  \/ ends_with_ignoring_case (name file) ".heic"
  \/ ends_with_ignoring_case (name file) ".heif".

(** ** Matching a literal against the whole of a string *)

(** [strip i t s] removes [t] from the head of [s], comparing characters
    as the matcher does. *)
Fixpoint strip (i : bool) (t s : string) : option string :=
  match t with
  | EmptyString => Some s
  | String c t' =>
      match s with
      | EmptyString => None
      | String a s' =>
          if Ascii.eqb (canonicalize i a) (canonicalize i c)
          then strip i t' s' else None
      end
  end.

Definition is_empty (s : string) : bool :=
  match s with EmptyString => true | String _ _ => false end.

(** [s] is [t] up to the case folding of the matcher. *)
Definition same_text (i : bool) (t s : string) : bool :=
  match strip i t s with
  | Some rest => is_empty rest
  | None => false
  end.

(** [whole i r p]: at any position, [r] matches exactly when the rest of
    the input satisfies [p], and then up to the end of the input. *)
Definition whole (i : bool) (r : regex) (p : string -> bool) : Prop :=
  forall s, matchAt i r s Some = if p s then Some "" else None.

(** [s] is [.heic] or [.heif], letter case set aside. *)
Definition heic_or_heif (s : string) : bool :=
  same_text true ".heic" s || same_text true ".heif" s.

Fixpoint last_char (s : string) : option ascii :=
  match s with
  | EmptyString => None
  | String c EmptyString => Some c
  | String _ s' => last_char s'
  end.

(** ** Resizing *)

(** The canvas [compressImage] builds for an image wider than
    [MAX_WIDTH]. *)
Definition resizedCanvas (image : Image) : Canvas :=
  let h := scaledHeight (width image) (height image) in
  mkCanvas MAX_WIDTH h [mkDrawImage image 0 0 MAX_WIDTH h].

(** The integer nearest to the exact quotient [p / q] for [q > 0], a
    tie going up: [round(p / q)] over the rationals. *)
Definition round_quotient (p q : Z) : Z := (2 * p + q) / (2 * q).

(** The exact quotient [p / q] lies half-way between two integers:
    [p / q = j - 1/2] for an integer [j]. *)
Definition half_way (p q : Z) : Prop := (2 * p + q) mod (2 * q) = 0.

(** Where the exact quotient lies between [N / D] and its successor,
    read off the remainder [r] of the division by [D]: on [N / D], or
    below, at or above the middle. *)
Definition location_of (r D : Z) : location :=
  if r =? 0 then loc_Exact else loc_Inexact (Z.compare (2 * r) D).

(** [tracks mrs N D]: the shift record [mrs] of the rounding algorithm
    holds the quotient [N / D] as its significand, and its round and
    sticky bits say where [N / D] exactly lies. *)
Definition tracks (mrs : shr_record) (N D : Z) : Prop :=
  0 < D /\ 0 <= N /\ shr_m mrs = N / D
  /\ loc_of_shr_record mrs = location_of (N mod D) D.

(** The file [compressImage] returns once the canvas is encoded. *)
Definition encodedFile (P : Platform) (blob : Blob) (loadableFile : File)
    (w : World) : File :=
  new_File (Some blob) (name loadableFile) "image/jpeg" (now P (ticks w)).

(** The file [convertHeicToJpeg] returns once the conversion is done. *)
Definition convertedFile (P : Platform) (out : HeicOutput) (file : File)
    (w : World) : File :=
  new_File (first_blob out) (replace true re_heic_or_heif (name file) ".jpg")
           "image/jpeg" (now P (ticks w)).

(** ** The validator's verdict *)

(** The file passes both checks of the [change] listener. *)
Definition accepted (file : File) : bool :=
  isValidImage file && negb (size file >? MAX_FILE_SIZE_BYTES).

(** The diagnostics of the specification, as the messages shown. *)
Definition TooManyFiles : Message := (text_max_files, "error").
Definition NotAnImage : Message := ("Only image files are allowed.", "error").
Definition FileTooLarge (file : File) : Message :=
  (text_too_large file, "error").
Definition NoValidFiles : Message :=
  ("No valid images selected. Please choose different files.", "error").
Definition NotProcessed : Message :=
  ("One of the images could not be processed. Please try different files.",
   "error").

(** What one turn of the [change] loop shows for a file: the rejection,
    or the preview failure of an accepted HEIC file, or nothing. *)
Definition step_messages (P : Platform) (file : File) : list Message :=
  if negb (isValidImage file) then [NotAnImage]
  else if size file >? MAX_FILE_SIZE_BYTES then [FileTooLarge file]
  else if isHeicFile file then
    match heic2any P file "image/jpeg" 0.9%float with
    | inl _ => [(text_no_preview file, "error")]
    | inr _ => []
    end
  else [].

(** Everything one run of the [change] listener shows, in order: the
    reset, the advisory about the count, the per-file diagnostics of the
    files kept, and the notice that none of them passed. *)
Definition onChange_messages (P : Platform) (files : list File)
    : list Message :=
  ([("", "")]
   ++ (if Z.of_nat (List.length files) >? MAX_FILES then [TooManyFiles] else [])
   ++ flat_map (step_messages P) (slice_MAX_FILES files)
   ++ (if (Z.of_nat (List.length (filter accepted (slice_MAX_FILES files))) =? 0)
          && (Z.of_nat (List.length files) >? 0)
       then [NoValidFiles] else []))%list.

Definition message_eqb (a b : Message) : bool :=
  String.eqb (fst a) (fst b) && String.eqb (snd a) (snd b).

(** How many times [m] was shown in [l]. *)
Definition occurrences (m : Message) (l : list Message) : nat :=
  List.length (filter (message_eqb m) l).

(** ** Stage failures *)

(** [StageFailure P file w e w']: run on [file] from [w], the pipeline
    stops with [e] in the normalisation, the decoding or the re-encoding
    stage, leaving the page in [w']. *)
Inductive StageFailure (P : Platform) (file : File) (w : World)
    : Error -> World -> Prop :=
| NormalizationFailed : forall e w1,
    ensureImageCanLoad P file w = (Throw e, w1) ->
    StageFailure P file w e w1
| DecodeFailed : forall loadable w1 e,
    ensureImageCanLoad P file w = (Ok loadable, w1) ->
    readFileAsImage P loadable w1 = (Throw e, w1) ->
    StageFailure P file w e w1
| ReencodeFailed : forall loadable w1 image,
    ensureImageCanLoad P file w = (Ok loadable, w1) ->
    readFileAsImage P loadable w1 = (Ok image, w1) ->
    MAX_WIDTH < width image ->
    toBlob P (resizedCanvas image) "image/jpeg" 0.85%float = None ->
    StageFailure P file w "Image compression failed."
                 (with_encoded (resizedCanvas image) w1).

(** A stage fails in the batch [files] prepared from [w]: either the
    batch holds a file on which a stage fails wherever it is run, or the
    files before some file are prepared and a stage fails on that file
    when its turn comes. *)
Definition stage_fails_in (P : Platform) (files : list File) (w : World)
    : Prop :=
  Exists (fun file => forall w0, exists e w0', StageFailure P file w0 e w0')
         files
  \/ exists before file after outs w1 e w2,
       files = (before ++ file :: after)%list
       /\ prepareCompressedFiles P before w = (Ok outs, w1)
       /\ StageFailure P file w1 e w2.

(** ** What the pipeline leaves alone *)

(** [untouched w w']: from [w] to [w'] the selection, the messages, the
    console, the previews and the requests did not change. *)
Definition untouched (w w' : World) : Prop :=
  selectedFiles w' = selectedFiles w
  /\ messages w' = messages w
  /\ console w' = console w
  /\ previews w' = previews w
  /\ requests w' = requests w.

(** The form [onSubmit] builds from the prepared files. *)
Definition formOf (compressedFiles : list File) : list FormEntry :=
  map (fun file => mkFormEntry "photos" file (name file)) compressedFiles.

(** ** The answer of the server *)

(** The request ended the way the script takes for a success: a status
    in the 200s and a body whose [success] is truthy. *)
Definition upload_succeeds (o : XhrOutcome) : bool :=
  match o with
  | Done status (Body true _) => (200 <=? status) && (status <? 300)
  | _ => false
  end.

(** The text left on the page when the request did not succeed. *)
Definition failure_text (o : XhrOutcome) : string :=
  match o with
  | Done _ (NotJSON _) =>
      "An unexpected error occurred while processing the server response."
  | Done _ (Body _ (Some e)) => e
  | Done _ _ => text_upload_failed
  | NetworkError =>
      "Could not reach the server. Please check your connection and try again."
  end.

Definition Uploaded : Message :=
  ("Teşekkürler! Fotoğraflarınız başarıyla yüklendi.", "success").
Definition NoneSelected : Message :=
  ("Please select at least one photo.", "error").
Definition NoPreview (file : File) : Message :=
  (text_no_preview file, "error").

(** The address the form is posted to. *)
Definition upload_url : string := API_BASE_URL ++ "/upload".

(** ** The script before HEIC support

    The earlier copy of the script kept in the repository: the same
    listeners and helpers without [isHeicFile], [convertHeicToJpeg] and
    [ensureImageCanLoad].  The [change] listener tests the MIME prefix
    alone and previews the file itself; [compressImage] decodes the file
    it is given. *)

Module Plain.

Section Script.

Variable P : Platform.

Definition compressImage (file : File) : M File :=
  image <- readFileAsImage P file ;;
  if width image <=? MAX_WIDTH then ret file
  else
    let w := MAX_WIDTH in
    let h := scaledHeight (width image) (height image) in
    let canvas := createCanvas in
    let canvas := set_canvas_width canvas w in
    let canvas := set_canvas_height canvas h in
    let canvas := drawImage canvas image 0 0 w h in
    await_toBlob P canvas file.

Fixpoint prepare_loop (files compressedFiles : list File) : M (list File) :=
  match files with
  | [] => ret compressedFiles
  | file :: rest =>
      compressed <-
        try_catch (compressImage file)
          (fun error =>
             console_error "Compression error:" ;;
             setMessage
               "One of the images could not be processed. Please try different files."
               "error" ;;
             throw error) ;;
      prepare_loop rest (compressedFiles ++ [compressed])
  end.

Definition prepareCompressedFiles (files : list File) : M (list File) :=
  prepare_loop files [].

Definition change_step (file : File) : M unit :=
  if negb (startsWith (type file) "image/") then
    setMessage "Only image files are allowed." "error"
  else if size file >? MAX_FILE_SIZE_BYTES then
    setMessage (text_too_large file) "error"
  else
    push_selected file ;;
    preview file.

Fixpoint change_loop (limitedFiles : list File) : M unit :=
  match limitedFiles with
  | [] => ret tt
  | file :: rest => change_step file ;; change_loop rest
  end.

Definition onChange (files : list File) : M unit :=
  modify (with_selectedFiles []) ;;
  resetPreview ;;
  setMessage "" "" ;;
  if Z.of_nat (List.length files) =? 0 then ret tt
  else
    (if Z.of_nat (List.length files) >? MAX_FILES
     then setMessage text_max_files "error"
     else ret tt) ;;
    let limitedFiles := slice_MAX_FILES files in
    change_loop limitedFiles ;;
    selected <- gets selectedFiles ;;
    if (Z.of_nat (List.length selected) =? 0)
       && (Z.of_nat (List.length files) >? 0)
    then setMessage "No valid images selected. Please choose different files."
                    "error"
    else ret tt.

End Script.

End Plain.

(** ** What else happens on the page while the listener is suspended *)

(** [other] leaves the selection, the messages or the previews as they
    are. *)
Definition keeps_selection (other : World -> World) : Prop :=
  forall w, selectedFiles (other w) = selectedFiles w.
Definition keeps_messages (other : World -> World) : Prop :=
  forall w, messages (other w) = messages w.
Definition keeps_previews (other : World -> World) : Prop :=
  forall w, previews (other w) = previews w.

(** The listener has to wait for the conversion of [file]: its [await] at
    this file lasts, and other events are handled meanwhile. *)
Definition awaited (file : File) : bool := accepted file && isHeicFile file.

(** The conversion of [file] succeeds. *)
Definition converts (P : Platform) (file : File) : bool :=
  match heic2any P file "image/jpeg" 0.9%float with
  | inr _ => true
  | inl _ => false
  end.

(** [file] passes the checks and can be shown: it is not HEIC, or its
    conversion succeeds. *)
Definition previewable (P : Platform) (file : File) : bool :=
  accepted file && (negb (isHeicFile file) || converts P file).

(** [shown] is what the preview reader is given for [file]: the file
    itself, or for a HEIC file its JPEG conversion, stamped with a
    reading of the clock. *)
Definition previewed_as (P : Platform) (file shown : File) : Prop :=
  if isHeicFile file then
    exists out n,
      heic2any P file "image/jpeg" 0.9%float = inr out
      /\ shown = new_File (first_blob out)
                          (replace true re_heic_or_heif (name file) ".jpg")
                          "image/jpeg" (now P n)
  else shown = file.

(** What is handed to the preview reader for a file that passes the
    checks, when the listener is resumed on the page [w]. *)
Definition handed_over (P : Platform) (file : File) (w : World) : list File :=
  if isHeicFile file then
    match heic2any P file "image/jpeg" 0.9%float with
    | inr out => [convertedFile P out file w]
    | inl _ => []
    end
  else [file].

(** The notice that closes a run whose selection ended as [selected]. *)
Definition closing_notice (selected files : list File) : list Message :=
  if (Z.of_nat (List.length selected) =? 0) && (Z.of_nat (List.length files) >? 0)
  then [NoValidFiles] else [].

(* ================================================================== *)
(** * Strings and patterns *)

Section Strings.

Lemma append_empty_r (s : string) : s ++ "" = s.
Proof. induction s as [|c s IH]; simpl; [reflexivity | now rewrite IH]. Qed.

Lemma append_assoc (s t u : string) : (s ++ t) ++ u = s ++ (t ++ u).
Proof. induction s as [|c s IH]; simpl; [reflexivity | now rewrite IH]. Qed.

Lemma length_append (s t : string) :
  String.length (s ++ t) = (String.length s + String.length t)%nat.
Proof. induction s as [|c s IH]; simpl; [reflexivity | now rewrite IH]. Qed.

Lemma last_char_append (s t : string) :
  t <> "" -> last_char (s ++ t) = last_char t.
Proof.
  intros Ht. induction s as [|c s IH]; simpl; [reflexivity|].
  rewrite IH. destruct (s ++ t) eqn:E; [|reflexivity].
  destruct s; simpl in E; [congruence | discriminate].
Qed.

Lemma upper_of_lower (c : ascii) : toUpperCase (toLowerCase c) = toUpperCase c.
Proof. destruct c as [[] [] [] [] [] [] [] []]; reflexivity. Qed.

Lemma lower_of_upper (c : ascii) : toLowerCase (toUpperCase c) = toLowerCase c.
Proof. destruct c as [[] [] [] [] [] [] [] []]; reflexivity. Qed.

(** Folding to upper case and folding to lower case identify the same
    characters. *)
Lemma fold_agree (a c : ascii) :
  Ascii.eqb (canonicalize true a) (canonicalize true c) = true
  <-> toLowerCase a = toLowerCase c.
Proof.
  unfold canonicalize. rewrite Ascii.eqb_eq. split; intros H.
  - rewrite <- (lower_of_upper a), <- (lower_of_upper c). now rewrite H.
  - rewrite <- (upper_of_lower a), <- (upper_of_lower c). now rewrite H.
Qed.

Lemma same_text_lowercase (t s : string) :
  same_text true t s = true <-> lowercase s = lowercase t.
Proof.
  unfold same_text. revert s.
  induction t as [|c t IH]; intros s; simpl.
  - destruct s; simpl; split; intros H; congruence.
  - destruct s as [|a s]; simpl; [split; intros H; discriminate|].
    destruct (Ascii.eqb (toUpperCase a) (toUpperCase c)) eqn:E.
    + apply (fold_agree a c) in E. specialize (IH s). split; intros H.
      * apply IH in H. now rewrite E, H.
      * apply IH. now injection H.
    + split; intros H; [discriminate|].
      injection H as H1 H2. apply (fold_agree a c) in H1.
      unfold canonicalize in H1. congruence.
Qed.

Lemma same_text_length (i : bool) (t s : string) :
  same_text i t s = true -> String.length s = String.length t.
Proof.
  unfold same_text. revert s.
  induction t as [|c t IH]; intros s; simpl.
  - destruct s; simpl; [reflexivity | discriminate].
  - destruct s as [|a s]; [discriminate|].
    destruct (Ascii.eqb _ _); [|discriminate].
    intros H. simpl. now rewrite (IH s H).
Qed.

Lemma matchAt_literal (i : bool) (t s : string) (k : string -> option string) :
  matchAt i (literal t) s k =
  match strip i t s with Some rest => k rest | None => None end.
Proof.
  revert s. induction t as [|c t IH]; intros s; simpl; [reflexivity|].
  destruct s as [|a s]; [reflexivity|].
  destruct (Ascii.eqb _ _); [apply IH | reflexivity].
Qed.

(** A pattern [t$] matches at a position exactly when what is left of
    the input is [t]. *)
Lemma matchAt_anchored (i : bool) (t s : string) :
  matchAt i (Seq (literal t) EndOfInput) s Some =
  if same_text i t s then Some "" else None.
Proof.
  simpl. rewrite matchAt_literal. unfold same_text.
  destruct (strip i t s) as [[|a r]|]; reflexivity.
Qed.

Lemma matchAt_alternative (i : bool) (c : ascii) (t1 t2 s : string) :
  matchAt i (Seq (Char c) (Seq (Alt (literal t1) (literal t2)) EndOfInput))
          s Some =
  if same_text i (String c t1) s || same_text i (String c t2) s
  then Some "" else None.
Proof.
  unfold same_text. destruct s as [|a s]; [reflexivity|].
  cbn [matchAt strip].
  destruct (Ascii.eqb (canonicalize i a) (canonicalize i c)); [|reflexivity].
  rewrite !matchAt_literal.
  destruct (strip i t1 s) as [[|b r]|];
    destruct (strip i t2 s) as [[|b' r']|]; reflexivity.
Qed.

Lemma matchAt_heic_or_heif (s : string) :
  matchAt true re_heic_or_heif s Some =
  if heic_or_heif s then Some "" else None.
Proof. exact (matchAt_alternative true "." "heic" "heif" s). Qed.

(** ** Patterns that can only match a whole remainder *)

Section Whole.

Variables (i : bool) (r : regex) (p : string -> bool) (n : nat).
Hypothesis Hwhole : whole i r p.
Hypothesis Hlen : forall s, p s = true -> String.length s = n.

Lemma exec_sound (s before rest : string) :
  exec i r s = Some (before, rest) ->
  rest = "" /\ exists tail, s = before ++ tail /\ p tail = true.
Proof.
  revert before rest. induction s as [|a s IH]; intros before rest; simpl;
    rewrite Hwhole.
  - destruct (p "") eqn:E; [|discriminate].
    intros H. injection H as <- <-. split; [reflexivity|]. now exists "".
  - destruct (p (String a s)) eqn:E.
    + intros H. injection H as <- <-. split; [reflexivity|].
      now exists (String a s).
    + destruct (exec i r s) as [[b' r']|] eqn:E'; [|discriminate].
      intros H. injection H as <- <-.
      destruct (IH b' r' eq_refl) as [-> [tail [-> Ht]]].
      split; [reflexivity|]. now exists tail.
Qed.

Lemma exec_complete (before tail : string) :
  p tail = true -> exec i r (before ++ tail) = Some (before, "").
Proof.
  intros Ht. induction before as [|a b IH]; simpl.
  - destruct tail as [|c t]; simpl; rewrite Hwhole, Ht; reflexivity.
  - rewrite Hwhole.
    destruct (p (String a (b ++ tail))) eqn:E.
    + apply Hlen in E. apply Hlen in Ht. simpl in E.
      rewrite length_append in E. lia.
    + now rewrite IH.
Qed.

Lemma test_iff (s : string) :
  test i r s = true <-> exists stem tail, s = stem ++ tail /\ p tail = true.
Proof.
  unfold test. split.
  - destruct (exec i r s) as [[b r']|] eqn:E; [|discriminate].
    intros _. destruct (exec_sound _ _ _ E) as [_ [tail [-> Ht]]].
    now exists b, tail.
  - intros [stem [tail [-> Ht]]]. now rewrite exec_complete.
Qed.

End Whole.

Lemma whole_anchored (i : bool) (t : string) :
  whole i (Seq (literal t) EndOfInput) (same_text i t).
Proof. intros s. apply matchAt_anchored. Qed.

Lemma whole_heic_or_heif : whole true re_heic_or_heif heic_or_heif.
Proof. intros s. apply matchAt_heic_or_heif. Qed.

Lemma heic_or_heif_length (s : string) :
  heic_or_heif s = true -> String.length s = 5%nat.
Proof.
  unfold heic_or_heif. intros H. apply orb_true_iff in H.
  destruct H as [H|H]; apply same_text_length in H; exact H.
Qed.

(** [test] of an anchored literal is the suffix test of the
    specification. *)
Lemma test_anchored (t s : string) :
  test true (Seq (literal t) EndOfInput) s = true
  <-> ends_with_ignoring_case s t.
Proof.
  rewrite (test_iff true _ _ (String.length t) (whole_anchored true t)
             (same_text_length true t)).
  unfold ends_with_ignoring_case.
  split; intros [stem [tail [E H]]]; exists stem, tail; split; trivial;
    now apply same_text_lowercase.
Qed.

End Strings.

(* ================================================================== *)
(** * Detection of HEIC files *)

Section Detection.

Lemma test_heic (s : string) :
  test true re_heic s = true <-> ends_with_ignoring_case s ".heic".
Proof. apply test_anchored. Qed.

Lemma test_heif (s : string) :
  test true re_heif s = true <-> ends_with_ignoring_case s ".heif".
Proof. apply test_anchored. Qed.

Lemma test_heic_suffix (s : string) :
  test true re_heic s = true
  <-> exists stem tail, s = stem ++ tail /\ same_text true ".heic" tail = true.
Proof.
  apply (test_iff true _ _ 5%nat (whole_anchored true ".heic")).
  intros t H. now apply same_text_length in H.
Qed.

Lemma test_heif_suffix (s : string) :
  test true re_heif s = true
  <-> exists stem tail, s = stem ++ tail /\ same_text true ".heif" tail = true.
Proof.
  apply (test_iff true _ _ 5%nat (whole_anchored true ".heif")).
  intros t H. now apply same_text_length in H.
Qed.

Lemma includes_In (arr : list string) (x : string) :
  includes arr x = true <-> In x arr.
Proof.
  induction arr as [|y arr IH]; simpl.
  - split; [discriminate | contradiction].
  - rewrite orb_true_iff, IH, String.eqb_eq. tauto.
Qed.

Lemma isHeicFile_proprietary (file : File) :
  isHeicFile file = true <-> proprietary_format file.
Proof.
  unfold isHeicFile, proprietary_format.
  rewrite !orb_true_iff, includes_In, test_heic, test_heif.
  unfold HEIC_TYPES. tauto.
Qed.

(** The last character of a five-letter extension, in the text it
    matched. *)
Lemma same_text_last (c1 c2 c3 c4 c5 : ascii) (tail : string) :
  same_text true
    (String c1 (String c2 (String c3 (String c4 (String c5 ""))))) tail = true ->
  exists c, last_char tail = Some c /\ toUpperCase c = toUpperCase c5.
Proof.
  unfold same_text.
  destruct tail as [|a1 [|a2 [|a3 [|a4 [|a5 [|a6 t]]]]]]; simpl;
    try discriminate;
    repeat match goal with
    | |- context [Ascii.eqb ?x ?y] =>
        destruct (Ascii.eqb x y) eqn:?; try discriminate
    end.
  intros _. exists a5. split; [reflexivity|]. now apply Ascii.eqb_eq.
Qed.

Lemma jpg_is_not_heic (before : string) :
  test true re_heic (before ++ ".jpg") = false
  /\ test true re_heif (before ++ ".jpg") = false.
Proof.
  assert (L : last_char (before ++ ".jpg") = Some "g"%char)
    by (rewrite last_char_append; [reflexivity | discriminate]).
  split.
  - destruct (test true re_heic (before ++ ".jpg")) eqn:E; [|reflexivity].
    apply test_heic_suffix in E. destruct E as [stem [tail [E H]]].
    destruct (same_text_last _ _ _ _ _ _ H) as [c [Hc Hu]].
    rewrite E, last_char_append in L
      by (intros ->; discriminate).
    rewrite Hc in L. injection L as ->. discriminate.
  - destruct (test true re_heif (before ++ ".jpg")) eqn:E; [|reflexivity].
    apply test_heif_suffix in E. destruct E as [stem [tail [E H]]].
    destruct (same_text_last _ _ _ _ _ _ H) as [c [Hc Hu]].
    rewrite E, last_char_append in L
      by (intros ->; discriminate).
    rewrite Hc in L. injection L as ->. discriminate.
Qed.

(** What [name.replace(/\.(heic|heif)$/i, '.jpg')] returns. *)
Lemma replace_extension (s : string) :
  (exists stem tail, s = stem ++ tail /\ heic_or_heif tail = true
                     /\ replace true re_heic_or_heif s ".jpg" = stem ++ ".jpg")
  \/ ((forall stem tail, s = stem ++ tail -> heic_or_heif tail = false)
      /\ replace true re_heic_or_heif s ".jpg" = s).
Proof.
  unfold replace.
  destruct (exec true re_heic_or_heif s) as [[before rest]|] eqn:E.
  - left.
    destruct (exec_sound true _ _ whole_heic_or_heif _ _ _ E)
      as [-> [tail [-> Ht]]].
    now exists before, tail.
  - right. split; [|reflexivity].
    intros stem tail -> . destruct (heic_or_heif tail) eqn:Ht; [|reflexivity].
    rewrite (exec_complete true _ _ 5%nat whole_heic_or_heif
               heic_or_heif_length stem tail Ht) in E.
    discriminate.
Qed.

(** The renamed file no longer carries a HEIC extension. *)
Lemma replaced_name_not_heic (s : string) :
  test true re_heic (replace true re_heic_or_heif s ".jpg") = false
  /\ test true re_heif (replace true re_heic_or_heif s ".jpg") = false.
Proof.
  destruct (replace_extension s) as [[stem [tail [_ [_ ->]]]]|[Hno ->]].
  - apply jpg_is_not_heic.
  - split.
    + destruct (test true re_heic s) eqn:E; [|reflexivity].
      apply test_heic_suffix in E. destruct E as [stem [tail [E H]]].
      specialize (Hno stem tail E). unfold heic_or_heif in Hno.
      rewrite H in Hno. discriminate.
    + destruct (test true re_heif s) eqn:E; [|reflexivity].
      apply test_heif_suffix in E. destruct E as [stem [tail [E H]]].
      specialize (Hno stem tail E). unfold heic_or_heif in Hno.
      rewrite H, orb_true_r in Hno. discriminate.
Qed.

(** A JPEG file keeps being taken for a plain image when its name has no
    HEIC extension. *)
Lemma jpeg_not_heic (file : File) :
  type file = "image/jpeg" ->
  test true re_heic (name file) = false ->
  test true re_heif (name file) = false ->
  isHeicFile file = false.
Proof.
  unfold isHeicFile. intros -> -> ->. reflexivity.
Qed.

Lemma not_heic_name (file : File) :
  isHeicFile file = false ->
  test true re_heic (name file) = false
  /\ test true re_heif (name file) = false.
Proof.
  unfold isHeicFile. intros H.
  apply orb_false_iff in H. destruct H as [H H2].
  apply orb_false_iff in H. destruct H as [_ H1]. now split.
Qed.

End Detection.

(* ================================================================== *)
(** * The pipeline, one file at a time *)

Section Pipeline.

Variable P : Platform.

(** ** Normalisation *)

Lemma ensure_plain (file : File) (w : World) :
  isHeicFile file = false -> ensureImageCanLoad P file w = (Ok file, w).
Proof. unfold ensureImageCanLoad. now intros ->. Qed.

Lemma ensure_converted (file : File) (w : World) (out : HeicOutput) :
  isHeicFile file = true ->
  heic2any P file "image/jpeg" 0.9%float = inr out ->
  ensureImageCanLoad P file w = (Ok (convertedFile P out file w), with_tick w).
Proof.
  unfold ensureImageCanLoad, convertHeicToJpeg, await_heic2any, bind.
  now intros -> ->.
Qed.

Lemma ensure_failed (file : File) (w : World) (e : Error) :
  isHeicFile file = true ->
  heic2any P file "image/jpeg" 0.9%float = inl e ->
  ensureImageCanLoad P file w = (Throw e, w).
Proof.
  unfold ensureImageCanLoad, convertHeicToJpeg, await_heic2any, bind.
  now intros -> ->.
Qed.

(** The three ways [ensureImageCanLoad] can end. *)
Lemma ensure_cases (file : File) (w : World) :
  (isHeicFile file = false /\ ensureImageCanLoad P file w = (Ok file, w))
  \/ (exists out, isHeicFile file = true
        /\ heic2any P file "image/jpeg" 0.9%float = inr out
        /\ ensureImageCanLoad P file w
           = (Ok (convertedFile P out file w), with_tick w))
  \/ (exists e, isHeicFile file = true
        /\ heic2any P file "image/jpeg" 0.9%float = inl e
        /\ ensureImageCanLoad P file w = (Throw e, w)).
Proof.
  destruct (isHeicFile file) eqn:H.
  - destruct (heic2any P file "image/jpeg" 0.9%float) as [e|out] eqn:E.
    + right; right. exists e. auto using ensure_failed.
    + right; left. exists out. auto using ensure_converted.
  - left. auto using ensure_plain.
Qed.

Lemma converted_not_heic (out : HeicOutput) (file : File) (w : World) :
  isHeicFile (convertedFile P out file w) = false.
Proof.
  apply jpeg_not_heic; [reflexivity | |];
    apply (replaced_name_not_heic (name file)).
Qed.

(** Whatever [ensureImageCanLoad] returns is not taken for HEIC again. *)
Lemma ensure_not_heic (file loadable : File) (w w1 : World) :
  ensureImageCanLoad P file w = (Ok loadable, w1) ->
  isHeicFile loadable = false.
Proof.
  destruct (ensure_cases file w)
    as [[H E]|[[out [H [_ E]]]|[e [H [_ E]]]]]; rewrite E; intros Q.
  - now injection Q as <- <-.
  - injection Q as <- <-. apply converted_not_heic.
  - discriminate.
Qed.

(** ** Decoding *)

(** Reading a file leaves the page as it is. *)
Lemma read_world (file : File) (w w' : World) (r : Result Image) :
  readFileAsImage P file w = (r, w') -> w' = w.
Proof.
  unfold readFileAsImage.
  destruct (readAsDataURL P file) as [url|].
  - destruct (decode P url) as [[x y]|]; intros H; now injection H.
  - intros H; now injection H.
Qed.

(** The outcome of a read does not depend on the page. *)
Lemma read_anywhere (file : File) (w w' : World) :
  readFileAsImage P file w' = (fst (readFileAsImage P file w), w').
Proof.
  unfold readFileAsImage.
  destruct (readAsDataURL P file) as [url|]; [|reflexivity].
  destruct (decode P url) as [[x y]|]; reflexivity.
Qed.

Lemma read_moved (file : File) (w w' : World) (r : Result Image) :
  readFileAsImage P file w = (r, w) ->
  readFileAsImage P file w' = (r, w').
Proof. intros H. rewrite (read_anywhere file w w'), H. reflexivity. Qed.

(** ** Resizing *)

Lemma resizedCanvas_width (image : Image) :
  canvas_width (resizedCanvas image) = 1920.
Proof. reflexivity. Qed.

Lemma resizedCanvas_height (image : Image) :
  canvas_height (resizedCanvas image)
  = scaledHeight (width image) (height image).
Proof. reflexivity. Qed.

(** [compressImage], stage by stage. *)
Lemma compressImage_stages (file : File) (w : World) :
  compressImage P file w =
  match ensureImageCanLoad P file w with
  | (Throw e, w1) => (Throw e, w1)
  | (Ok loadable, w1) =>
      match readFileAsImage P loadable w1 with
      | (Throw e, w2) => (Throw e, w2)
      | (Ok image, w2) =>
          if width image <=? MAX_WIDTH then (Ok loadable, w2)
          else await_toBlob P (resizedCanvas image) loadable w2
      end
  end.
Proof.
  unfold compressImage, bind.
  destruct (ensureImageCanLoad P file w) as [[loadable|e] w1]; [|reflexivity].
  destruct (readFileAsImage P loadable w1) as [[image|e] w2]; [|reflexivity].
  destruct (width image <=? MAX_WIDTH); reflexivity.
Qed.

Lemma await_toBlob_encoded (canvas : Canvas) (loadable : File) (w : World)
    (blob : Blob) :
  toBlob P canvas "image/jpeg" 0.85%float = Some blob ->
  await_toBlob P canvas loadable w
  = (Ok (encodedFile P blob loadable (with_encoded canvas w)),
     with_tick (with_encoded canvas w)).
Proof. unfold await_toBlob, bind, modify. now intros ->. Qed.

Lemma await_toBlob_null (canvas : Canvas) (loadable : File) (w : World) :
  toBlob P canvas "image/jpeg" 0.85%float = None ->
  await_toBlob P canvas loadable w
  = (Throw "Image compression failed.", with_encoded canvas w).
Proof. unfold await_toBlob, bind, modify. now intros ->. Qed.

(** An image no wider than [MAX_WIDTH] is handed back as loaded. *)
Lemma compress_narrow (file loadable : File) (w w1 : World) (image : Image) :
  ensureImageCanLoad P file w = (Ok loadable, w1) ->
  readFileAsImage P loadable w1 = (Ok image, w1) ->
  width image <= MAX_WIDTH ->
  compressImage P file w = (Ok loadable, w1).
Proof.
  intros E R Hw. rewrite compressImage_stages, E, R.
  apply Z.leb_le in Hw. now rewrite Hw.
Qed.

(** A wider image goes through the canvas. *)
Lemma compress_wide (file loadable : File) (w w1 : World) (image : Image) :
  ensureImageCanLoad P file w = (Ok loadable, w1) ->
  readFileAsImage P loadable w1 = (Ok image, w1) ->
  MAX_WIDTH < width image ->
  compressImage P file w = await_toBlob P (resizedCanvas image) loadable w1.
Proof.
  intros E R Hw. rewrite compressImage_stages, E, R.
  apply Z.leb_gt in Hw. now rewrite Hw.
Qed.

(** Every way [compressImage] can succeed. *)
Lemma compress_ok_inv (file out : File) (w w' : World) :
  compressImage P file w = (Ok out, w') ->
  exists loadable w1 image,
    ensureImageCanLoad P file w = (Ok loadable, w1)
    /\ readFileAsImage P loadable w1 = (Ok image, w1)
    /\ ((width image <= MAX_WIDTH /\ out = loadable /\ w' = w1)
        \/ (MAX_WIDTH < width image
            /\ exists blob,
                 toBlob P (resizedCanvas image) "image/jpeg" 0.85%float
                 = Some blob
                 /\ out = encodedFile P blob loadable
                            (with_encoded (resizedCanvas image) w1)
                 /\ w' = with_tick (with_encoded (resizedCanvas image) w1))).
Proof.
  rewrite compressImage_stages.
  destruct (ensureImageCanLoad P file w) as [[loadable|e] w1] eqn:E;
    [|discriminate].
  destruct (readFileAsImage P loadable w1) as [[image|e] w2] eqn:R;
    [|discriminate].
  assert (w2 = w1) by (eapply read_world; eassumption). subst w2.
  destruct (width image <=? MAX_WIDTH) eqn:Hw.
  - intros Q. injection Q as <- <-. apply Z.leb_le in Hw.
    exists loadable, w1, image. split; [reflexivity|]. split; [exact R|].
    left. auto.
  - apply Z.leb_gt in Hw. intros Q.
    exists loadable, w1, image. split; [reflexivity|]. split; [exact R|].
    right. split; [exact Hw|].
    destruct (toBlob P (resizedCanvas image) "image/jpeg" 0.85%float)
      as [blob|] eqn:B.
    + rewrite (await_toBlob_encoded _ _ _ _ B) in Q. injection Q as <- <-.
      exists blob. auto.
    + rewrite (await_toBlob_null _ _ _ B) in Q. discriminate.
Qed.

(** What [compressImage] returns is never taken for HEIC. *)
Lemma compress_not_heic (file out : File) (w w' : World) :
  compressImage P file w = (Ok out, w') -> isHeicFile out = false.
Proof.
  intros H. apply compress_ok_inv in H.
  destruct H as [loadable [w1 [image [E [_ H]]]]].
  pose proof (ensure_not_heic _ _ _ _ E) as N.
  destruct H as [[_ [-> _]]|[_ [blob [_ [-> _]]]]]; [exact N|].
  apply not_heic_name in N. destruct N as [N1 N2].
  now apply jpeg_not_heic.
Qed.

End Pipeline.

(* ================================================================== *)
(** * Rounding in double precision

    What [Math.round(height * (MAX_WIDTH / width))] is as an integer.
    The primitive operations on doubles are those of [SpecFloat]
    ([div_spec], [mul_spec]): the exact result is shifted to 53 bits and
    rounded to nearest, ties to even.  The lemmas follow the quotient
    and the remainder through the shifts, bound the error of the
    division and of the multiplication, and compare the rounded product
    with the rounded exact quotient. *)

Section Doubles.

(** ** Shifting and rounding *)

(** One shift to the right of a non-negative significand: it is halved,
    the bit that falls off becomes the round bit, and the former round
    bit joins the sticky bit. *)
Lemma shr_1_nonneg m r s :
  0 <= m ->
  shr_1 (Build_shr_record m r s) = Build_shr_record (m / 2) (Z.odd m) (r || s).
Proof.
  intros H. destruct m as [|[p|p|]|p]; try lia; cbn [shr_1 Z.odd].
  - reflexivity.
  - f_equal. rewrite (Pos2Z.inj_xI p). apply Z.div_unique with 1; lia.
  - f_equal. rewrite (Pos2Z.inj_xO p). apply Z.div_unique with 0; lia.
  - reflexivity.
Qed.

(** Both bits are clear exactly when nothing is left of the division. *)
Lemma location_exact mrs N D :
  tracks mrs N D -> (shr_r mrs || shr_s mrs) = negb (N mod D =? 0).
Proof.
  intros (_ & _ & _ & Hl). unfold location_of in Hl.
  destruct mrs as [m r s]. cbn [shr_r shr_s].
  destruct (N mod D =? 0); destruct r, s; cbn in Hl |- *; congruence.
Qed.

(** One shift to the right divides by two once more. *)
Lemma shr_1_tracks mrs N D : tracks mrs N D -> tracks (shr_1 mrs) N (2 * D).
Proof.
  intros T. pose proof (location_exact _ _ _ T) as Hs.
  destruct T as (HD & HN & Hm & _).
  assert (Hq : N / (2 * D) = (N / D) / 2)
    by (rewrite (Z.mul_comm 2 D), Z.div_div by lia; reflexivity).
  assert (Hr : N mod (2 * D) = D * ((N / D) mod 2) + N mod D).
  { rewrite (Z.mul_comm 2 D). rewrite Z.rem_mul_r by lia. ring. }
  pose proof (Z.mod_pos_bound N D HD) as Hb.
  pose proof (Z.div_pos N D HN HD) as Hp.
  destruct mrs as [m r s]. cbn [shr_m shr_r shr_s] in *.
  rewrite shr_1_nonneg by lia.
  unfold tracks. split; [lia|]. split; [lia|].
  cbn [shr_m loc_of_shr_record]. split; [now rewrite Hq, Hm|].
  rewrite Hr, <- Hm, Hs. unfold location_of.
  rewrite Zmod_odd.
  destruct (Z.odd m); destruct (N mod D =? 0) eqn:E; cbn [negb];
    [apply Z.eqb_eq in E | apply Z.eqb_neq in E
    | apply Z.eqb_eq in E | apply Z.eqb_neq in E].
  - replace (D * 1 + N mod D =? 0) with false by (symmetry; apply Z.eqb_neq; lia).
    f_equal. symmetry. apply Z.compare_eq_iff. lia.
  - replace (D * 1 + N mod D =? 0) with false by (symmetry; apply Z.eqb_neq; lia).
    f_equal. symmetry. apply Z.compare_gt_iff. lia.
  - replace (D * 0 + N mod D =? 0) with true by (symmetry; apply Z.eqb_eq; lia).
    reflexivity.
  - replace (D * 0 + N mod D =? 0) with false by (symmetry; apply Z.eqb_neq; lia).
    f_equal. symmetry. apply Z.compare_lt_iff. lia.
Qed.

Lemma pow2_xO p : 2 ^ Z.pos p~0 = 2 ^ Z.pos p * 2 ^ Z.pos p.
Proof.
  rewrite (Pos2Z.inj_xO p). replace (2 * Z.pos p) with (Z.pos p + Z.pos p) by lia.
  apply Z.pow_add_r; lia.
Qed.

Lemma pow2_xI p : 2 ^ Z.pos p~1 = 2 * (2 ^ Z.pos p * 2 ^ Z.pos p).
Proof.
  rewrite (Pos2Z.inj_xI p). replace (2 * Z.pos p + 1) with (1 + (Z.pos p + Z.pos p)) by lia.
  rewrite Z.pow_add_r, Z.pow_add_r by lia. reflexivity.
Qed.

Lemma iter_shr_tracks p : forall mrs N D,
  tracks mrs N D -> tracks (iter_pos shr_1 p mrs) N (D * 2 ^ Zpos p).
Proof.
  induction p as [p IH|p IH|]; intros mrs N D T; cbn [iter_pos].
  - apply shr_1_tracks in T. apply IH in T. apply IH in T.
    replace (D * 2 ^ Z.pos p~1) with (2 * D * 2 ^ Z.pos p * 2 ^ Z.pos p);
      [exact T|]. rewrite pow2_xI. ring.
  - apply IH in T. apply IH in T.
    replace (D * 2 ^ Z.pos p~0) with (D * 2 ^ Z.pos p * 2 ^ Z.pos p);
      [exact T|]. rewrite pow2_xO. ring.
  - apply shr_1_tracks in T. now rewrite Z.pow_1_r, Z.mul_comm.
Qed.

(** [shr] by [n >= 0] places divides by [2 ^ n] and raises the exponent
    by [n]. *)
Lemma shr_tracks mrs e n N D :
  0 <= n -> tracks mrs N D ->
  tracks (fst (shr mrs e n)) N (D * 2 ^ n) /\ snd (shr mrs e n) = e + n.
Proof.
  intros Hn T. unfold shr. destruct n as [|p|p]; try lia; cbn [fst snd].
  - rewrite Z.mul_1_r. split; [exact T | lia].
  - split; [now apply iter_shr_tracks | reflexivity].
Qed.

(** Rounding to nearest, ties to even, picks a neighbour of the quotient
    at distance at most one half. *)
Lemma round_nearest mrs N D :
  tracks mrs N D ->
  let R := round_nearest_even (shr_m mrs) (loc_of_shr_record mrs) in
  2 * Z.abs (R * D - N) <= D /\ N / D <= R <= N / D + 1.
Proof.
  intros (HD & HN & Hm & Hl). cbv zeta. rewrite Hl, Hm. unfold location_of.
  pose proof (Z.mod_pos_bound N D HD) as Hb.
  pose proof (Z.div_mod N D ltac:(lia)) as Hdm.
  destruct (N mod D =? 0) eqn:E; cbn [round_nearest_even].
  - apply Z.eqb_eq in E. nia.
  - apply Z.eqb_neq in E.
    destruct (Z.compare_spec (2 * (N mod D)) D) as [C|C|C].
    + destruct (Z.even (N / D)); nia.
    + nia.
    + nia.
Qed.

Lemma tracks_of_loc N D :
  0 < D -> 0 <= N ->
  tracks (shr_record_of_loc (N / D) (location_of (N mod D) D)) N D.
Proof.
  intros HD HN. unfold tracks. split; [exact HD|]. split; [exact HN|].
  unfold location_of. destruct (N mod D =? 0); [split; reflexivity|].
  destruct (2 * (N mod D) ?= D); split; reflexivity.
Qed.

(** ** The number of binary digits *)

Lemma digits_bounds p :
  2 ^ (Zpos (digits2_pos p) - 1) <= Zpos p < 2 ^ Zpos (digits2_pos p).
Proof.
  induction p as [p IH|p IH|]; cbn [digits2_pos].
  - rewrite Pos2Z.inj_succ, (Pos2Z.inj_xI p).
    replace (Z.succ (Z.pos (digits2_pos p)) - 1)
      with (1 + (Z.pos (digits2_pos p) - 1)) by lia.
    unfold Z.succ. rewrite (Z.add_comm _ 1).
    rewrite !Z.pow_add_r by lia. change (2 ^ 1) with 2. lia.
  - rewrite Pos2Z.inj_succ, (Pos2Z.inj_xO p).
    replace (Z.succ (Z.pos (digits2_pos p)) - 1)
      with (1 + (Z.pos (digits2_pos p) - 1)) by lia.
    unfold Z.succ. rewrite (Z.add_comm _ 1).
    rewrite !Z.pow_add_r by lia. change (2 ^ 1) with 2. lia.
  - cbn. lia.
Qed.

Lemma Zdigits2_bounds m :
  0 < m -> 2 ^ (Zdigits2 m - 1) <= m < 2 ^ Zdigits2 m.
Proof. destruct m as [|p|p]; try lia. intros _. apply digits_bounds. Qed.

Lemma Zdigits2_pos m : 0 < m -> 0 < Zdigits2 m.
Proof. destruct m as [|p|p]; try lia. intros _. cbn. lia. Qed.

Lemma Zdigits2_unique m k :
  0 < m -> 2 ^ (k - 1) <= m < 2 ^ k -> Zdigits2 m = k.
Proof.
  intros Hm [H1 H2]. pose proof (Zdigits2_bounds m Hm) as [B1 B2].
  pose proof (Zdigits2_pos m Hm) as Hp.
  assert (0 < k).
  { destruct k as [|q|q]; [cbn in H2; lia | lia |].
    rewrite Z.pow_neg_r in H2 by lia. lia. }
  destruct (Z.lt_trichotomy (Zdigits2 m) k) as [L|[E|G]]; [|exact E|].
  - assert (2 ^ Zdigits2 m <= 2 ^ (k - 1)) by (apply Z.pow_le_mono_r; lia). lia.
  - assert (2 ^ k <= 2 ^ (Zdigits2 m - 1)) by (apply Z.pow_le_mono_r; lia). lia.
Qed.

(** ** Rounding to 53 bits in the normal range *)

Lemma fexp_normal x : -1074 <= x - 53 -> fexp prec emax x = x - 53.
Proof. unfold fexp, emin, prec, emax. lia. Qed.

(** [binary_round_aux] on the quotient [N / D] with its remainder, when
    the quotient has at least 53 bits and the result is a normal number:
    the significand is the nearest 53-bit approximation [R], renormalised
    when the rounding carries up to [2 ^ 53]. *)
Lemma round_aux_pos N D ex :
  0 < D -> 0 <= N ->
  let mx := N / D in
  let n := Zdigits2 mx - 53 in
  0 <= n -> -1074 <= ex + n -> ex + n + 1 <= 971 ->
  exists R m e,
    binary_round_aux prec emax false mx ex (location_of (N mod D) D)
    = S754_finite false m e
    /\ N / (D * 2 ^ n) <= R <= N / (D * 2 ^ n) + 1
    /\ 2 * Z.abs (R * (D * 2 ^ n) - N) <= D * 2 ^ n
    /\ 2 ^ 52 <= R <= 2 ^ 53
    /\ ((R < 2 ^ 53 /\ Zpos m = R /\ e = ex + n)
        \/ (R = 2 ^ 53 /\ Zpos m = 2 ^ 52 /\ e = ex + n + 1)).
Proof.
  intros HD HN mx n Hn Hlo Hhi.
  assert (Hmx : 0 < mx).
  { destruct (Z.lt_trichotomy 0 mx) as [L|[E|G]]; [exact L| |].
    - subst n. rewrite <- E in Hn. cbn in Hn. lia.
    - pose proof (Z.div_pos N D HN HD). fold mx in H. lia. }
  pose proof (Zdigits2_bounds mx Hmx) as [B1 B2].
  replace (Zdigits2 mx) with (53 + n) in B1, B2 by (subst n; lia).
  assert (P2 : 0 < 2 ^ n) by (apply Z.pow_pos_nonneg; lia).
  unfold binary_round_aux, shr_fexp.
  replace (fexp prec emax (Zdigits2 mx + ex) - ex) with n
    by (rewrite fexp_normal; subst n; lia).
  destruct (shr_tracks _ ex n N D Hn (tracks_of_loc N D HD HN)) as [T1 E1].
  fold mx in T1, E1 |- *.
  destruct (shr (shr_record_of_loc mx (location_of (N mod D) D)) ex n)
    as [mrs' e']. cbn [fst snd] in T1, E1. subst e'.
  pose proof (round_nearest _ _ _ T1) as [Hb Hr]. cbv zeta in Hb, Hr.
  set (R := round_nearest_even (shr_m mrs') (loc_of_shr_record mrs')) in *.
  assert (HM : 2 ^ 52 <= N / (D * 2 ^ n) < 2 ^ 53).
  { rewrite <- Z.div_div by lia. fold mx.
    replace (53 + n - 1) with (52 + n) in B1 by lia.
    rewrite Z.pow_add_r in B1, B2 by lia. split.
    - apply Z.div_le_lower_bound; lia.
    - apply Z.div_lt_upper_bound; lia. }
  exists R.
  assert (HR : 2 ^ 52 <= R <= 2 ^ 53) by lia.
  destruct (Z_lt_le_dec R (2 ^ 53)) as [Lt|Ge].
  - assert (Hd : Zdigits2 R = 53)
      by (apply Zdigits2_unique; [lia | change (53 - 1) with 52; lia]).
    rewrite Hd.
    replace (fexp prec emax (53 + (ex + n)) - (ex + n)) with 0
      by (rewrite fexp_normal; lia).
    cbn [shr shr_record_of_loc shr_m].
    destruct R as [|m|m] eqn:ER; try lia.
    exists m, (ex + n).
    replace (ex + n <=? emax - prec) with true
      by (symmetry; apply Z.leb_le; unfold emax, prec; lia).
    repeat split; lia.
  - assert (ER : R = 2 ^ 53) by lia. rewrite ER.
    exists (2 ^ 52)%positive, (ex + n + 1).
    change (Zdigits2 (2 ^ 53)) with 54.
    replace (fexp prec emax (54 + (ex + n)) - (ex + n)) with 1
      by (rewrite fexp_normal; lia).
    cbn [shr shr_record_of_loc iter_pos].
    change (shr_m (shr_1 {| shr_m := 2 ^ 53; shr_r := false; shr_s := false |}))
      with (Z.pos (2 ^ 52)).
    cbv iota beta.
    replace (ex + n + 1 <=? emax - prec) with true
      by (symmetry; apply Z.leb_le; unfold emax, prec; lia).
    repeat split; lia.
Qed.

(** The same, as one inequality between the result and [N / D]. *)
Lemma round_aux_value N D ex :
  0 < D -> 0 <= N ->
  let n := Zdigits2 (N / D) - 53 in
  0 <= n -> -1074 <= ex + n -> ex + n + 1 <= 971 ->
  exists m e,
    binary_round_aux prec emax false (N / D) ex (location_of (N mod D) D)
    = S754_finite false m e
    /\ 2 ^ 52 <= Zpos m < 2 ^ 53
    /\ ex + n <= e <= ex + n + 1
    /\ 2 * Z.abs (Zpos m * (D * 2 ^ (e - ex)) - N) <= D * 2 ^ (e - ex).
Proof.
  intros HD HN n Hn Hlo Hhi.
  destruct (round_aux_pos N D ex HD HN Hn Hlo Hhi)
    as (R & m & e & E & _ & Hb & HR & [(Lt & Em & Ee)|(ER & Em & Ee)]).
  - exists m, e. fold n in Hb, Ee. subst e.
    replace (ex + n - ex) with n by lia. rewrite Em.
    repeat split; try lia. exact E.
  - exists m, e. fold n in Hb, Ee. subst e.
    replace (ex + n + 1 - ex) with (n + 1) by lia.
    rewrite Z.pow_add_r by lia. change (2 ^ 1) with 2.
    assert (P2 : 0 < 2 ^ n) by (apply Z.pow_pos_nonneg; lia).
    rewrite Em. rewrite ER in Hb.
    repeat split; try lia. exact E.
Qed.

(** The location [SFdiv] computes from the remainder is the one this
    development tracks. *)
Lemma new_location_spec nb k : new_location nb k = location_of k nb.
Proof.
  unfold new_location, new_location_even, new_location_odd, location_of.
  destruct (Z.even nb) eqn:Ev; [reflexivity|].
  destruct (k =? 0); [reflexivity|]. f_equal.
  assert (Hodd : Z.odd nb = true) by (rewrite <- Z.negb_even, Ev; reflexivity).
  apply Z.odd_spec in Hodd. destruct Hodd as [j Hj].
  destruct (Z.compare_spec (2 * k + 1) nb), (Z.compare_spec (2 * k) nb);
    try reflexivity; lia.
Qed.

(** A 53-bit significand with an exponent in range is a valid double. *)
Lemma valid_normal s m e :
  2 ^ 52 <= Zpos m < 2 ^ 53 -> -1074 <= e <= 971 ->
  valid_binary (S754_finite s m e) = true.
Proof.
  intros Hm He. unfold SpecFloat.valid_binary, bounded, canonical_mantissa.
  assert (Hd : Zpos (digits2_pos m) = 53).
  { change (Zpos (digits2_pos m)) with (Zdigits2 (Zpos m)).
    apply Zdigits2_unique; [lia | change (53 - 1) with 52; lia]. }
  rewrite Hd, fexp_normal by lia.
  apply andb_true_intro. split.
  - apply Z.eqb_eq. lia.
  - apply Z.leb_le. unfold emax, prec. lia.
Qed.

(** A value that already has exactly 53 bits is not changed by the
    rounding. *)
Lemma round_exact mz ez :
  2 ^ 52 <= Zpos mz < 2 ^ 53 -> -1074 <= ez <= 970 ->
  binary_round_aux prec emax false (Zpos mz) ez loc_Exact
  = S754_finite false mz ez.
Proof.
  intros Hm He.
  assert (Hd : Zdigits2 (Zpos mz) = 53)
    by (apply Zdigits2_unique; [lia | change (53 - 1) with 52; lia]).
  assert (H0 : 0 <= Zdigits2 (Zpos mz / 1) - 53)
    by (rewrite Z.div_1_r, Hd; lia).
  destruct (round_aux_pos (Zpos mz) 1 ez) as (R & m & e & E & _ & Hb & _ & C);
    try (rewrite ?Z.div_1_r, ?Hd; lia).
  rewrite Z.div_1_r, Z.mod_1_r, Hd in *.
  change (53 - 53) with 0 in *. change (2 ^ 0) with 1 in Hb.
  change (location_of 0 1) with loc_Exact in E.
  rewrite E. destruct C as [(Lt & Em & Ee)|(ER & Em & Ee)]; [|lia].
  f_equal; lia.
Qed.

(** ** The operations of the script

    [Number z] for [0 < z < 2 ^ 53]: the double is [z] itself, with the
    significand shifted to 53 bits. *)
Lemma Number_spec z :
  0 < z < 2 ^ 53 ->
  let k := 53 - Zdigits2 z in
  exists m, Prim2SF (Number z) = S754_finite false m (- k)
    /\ 0 <= k /\ Zpos m = z * 2 ^ k /\ 2 ^ 52 <= Zpos m < 2 ^ 53.
Proof.
  intros Hz k.
  pose proof (Zdigits2_bounds z ltac:(lia)) as [B1 B2].
  pose proof (Zdigits2_pos z ltac:(lia)) as Hd0.
  assert (Hd : Zdigits2 z <= 53).
  { destruct (Z_le_gt_dec (Zdigits2 z) 53) as [L|G]; [exact L|].
    assert (2 ^ 53 <= 2 ^ (Zdigits2 z - 1)) by (apply Z.pow_le_mono_r; lia).
    lia. }
  assert (Hk : 0 <= k) by (subst k; lia).
  assert (Hm : 2 ^ 52 <= z * 2 ^ k < 2 ^ 53).
  { assert (P2 : 0 < 2 ^ k) by (apply Z.pow_pos_nonneg; lia).
    assert (E52 : 2 ^ 52 = 2 ^ (Zdigits2 z - 1) * 2 ^ k)
      by (rewrite <- Z.pow_add_r by lia; f_equal; subst k; lia).
    assert (E53 : 2 ^ 53 = 2 ^ Zdigits2 z * 2 ^ k)
      by (rewrite <- Z.pow_add_r by lia; f_equal; subst k; lia).
    rewrite E52, E53. split.
    - apply Z.mul_le_mono_nonneg_r; lia.
    - apply Z.mul_lt_mono_pos_r; lia. }
  destruct z as [|p|p]; try lia.
  assert (S : exists mz, shl_align p 0 (fexp prec emax (Zpos (digits2_pos p) + 0))
                         = (mz, - k) /\ Zpos mz = Zpos p * 2 ^ k).
  { change (Zpos (digits2_pos p)) with (Zdigits2 (Zpos p)).
    rewrite fexp_normal by lia. unfold shl_align.
    destruct (Zdigits2 (Zpos p) + 0 - 53 - 0) as [|q|q] eqn:Eq; try lia.
    - exists p. replace k with 0 by lia. split; [reflexivity|]. cbn. lia.
    - exists (shift_pos q p). split.
      + unfold shift_pos. f_equal. lia.
      + rewrite shift_pos_correct. change (Z.pow_pos 2 q) with (2 ^ Zpos q).
        replace k with (Zpos q) by lia. lia. }
  destruct S as (mz & ES & Em). exists mz.
  unfold Number, binary_normalize, binary_round. rewrite ES.
  rewrite <- Em in Hm.
  rewrite round_exact by (subst k; lia).
  rewrite Prim2SF_SF2Prim by (apply valid_normal; [exact Hm | subst k; lia]).
  repeat split; try lia.
Qed.

Lemma digits_between m a b :
  0 <= a -> 2 ^ a <= m < 2 ^ b -> a + 1 <= Zdigits2 m <= b.
Proof.
  intros Ha [L U].
  assert (Hm : 0 < m) by (pose proof (Z.pow_pos_nonneg 2 a); lia).
  pose proof (Zdigits2_bounds m Hm) as [B1 B2].
  pose proof (Zdigits2_pos m Hm) as Hd. split.
  - destruct (Z_le_gt_dec (a + 1) (Zdigits2 m)) as [G|G]; [exact G|].
    assert (2 ^ Zdigits2 m <= 2 ^ a) by (apply Z.pow_le_mono_r; lia). lia.
  - destruct (Z_le_gt_dec (Zdigits2 m) b) as [G|G]; [exact G|].
    assert (2 ^ b <= 2 ^ (Zdigits2 m - 1)) by (apply Z.pow_le_mono_r; lia).
    lia.
Qed.

(** The quotient and remainder [SFdiv] rounds, for two 53-bit
    significands. *)
Lemma div_core m1 e1 m2 e2 :
  Zdigits2 m1 = 53 -> Zdigits2 m2 = 53 -> -1074 <= e1 - e2 - 53 ->
  SFdiv_core_binary prec emax m1 e1 m2 e2
  = ((m1 * 2 ^ 53) / m2, e1 - e2 - 53,
     location_of ((m1 * 2 ^ 53) mod m2) m2).
Proof.
  intros H1 H2 He. unfold SFdiv_core_binary. rewrite H1, H2.
  replace (53 + e1 - (53 + e2)) with (e1 - e2) by lia.
  rewrite fexp_normal by lia. rewrite Z.min_l by lia.
  replace (e1 - e2 - (e1 - e2 - 53)) with 53 by lia.
  cbv zeta iota beta. rewrite Z.shiftl_mul_pow2 by lia.
  unfold Z.div, Z.modulo.
  destruct (Z.div_eucl (m1 * 2 ^ 53) m2) as [q r].
  rewrite new_location_spec. reflexivity.
Qed.

(** [scale = MAX_WIDTH / width]: a double [ms * 2 ^ es] within half a unit
    in the last place of [1920 / w]. *)
Lemma scale_spec w :
  MAX_WIDTH < w < 2 ^ 32 ->
  exists ms es,
    Prim2SF (Number MAX_WIDTH / Number w) = S754_finite false ms es
    /\ 2 ^ 52 <= Zpos ms < 2 ^ 53
    /\ -74 <= es <= -51
    /\ 2 * Z.abs (Zpos ms * w - 1920 * 2 ^ (- es)) <= w.
Proof.
  unfold MAX_WIDTH. intros Hw.
  destruct (Number_spec w) as (mw & Ew & Hk & Emw & Hmw); [lia|].
  set (k := 53 - Zdigits2 w) in *.
  assert (Hd : 11 <= Zdigits2 w <= 32).
  { apply (digits_between w 10 32); [lia|]. change (2 ^ 10) with 1024. lia. }
  assert (E1 : Prim2SF (Number 1920) = S754_finite false 8444249301319680 (-42))
    by (vm_compute; reflexivity).
  rewrite div_spec, Ew, E1. unfold SF64div, SFdiv.
  rewrite div_core;
    [ | reflexivity
      | apply Zdigits2_unique; [lia | change (53 - 1) with 52; lia]
      | lia ].
  set (N := Z.pos 8444249301319680 * 2 ^ 53).
  set (e' := -42 - - k - 53).
  assert (HN : N = 1920 * 2 ^ 95) by reflexivity.
  assert (Hq : 2 ^ 52 <= N / Zpos mw < 2 ^ 54).
  { split.
    - apply Z.div_le_lower_bound; [lia|]. rewrite HN.
      change (1920 * 2 ^ 95) with (1920 * 2 ^ 43 * 2 ^ 52). nia.
    - apply Z.div_lt_upper_bound; [lia|]. rewrite HN.
      change (1920 * 2 ^ 95) with (1920 * 2 ^ 41 * 2 ^ 54).
      change (2 ^ 52) with (2 ^ 41 * 2048) in Hmw. nia. }
  pose proof (digits_between _ 52 54 ltac:(lia) Hq) as Hdq.
  destruct (round_aux_value N (Zpos mw) e') as (ms & es & E & Hms & Hes & Hb);
    try (subst e'; lia).
  exists ms, es. cbn [xorb]. split; [exact E|].
  split; [exact Hms|]. split; [subst e'; lia|].
  set (t := es - e') in *.
  assert (Ht : 0 <= t) by (subst t e'; lia).
  set (Pw := 2 ^ k * 2 ^ t).
  assert (HPw : 0 < Pw).
  { apply Z.mul_pos_pos; apply Z.pow_pos_nonneg; lia. }
  assert (HPB : Pw * 2 ^ (- es) = 2 ^ 95).
  { unfold Pw. rewrite <- !Z.pow_add_r by (subst t e'; lia).
    f_equal. subst t e'. lia. }
  assert (EX : Zpos ms * (Zpos mw * 2 ^ t) - N
               = Pw * (Zpos ms * w - 1920 * 2 ^ (- es))).
  { rewrite HN, <- HPB, Emw. unfold Pw. ring. }
  rewrite EX, Z.abs_mul, (Z.abs_eq Pw) in Hb by lia.
  replace (Zpos mw * 2 ^ t) with (Pw * w) in Hb by (rewrite Emw; unfold Pw; ring).
  apply (Z.mul_le_mono_pos_l _ _ Pw HPw).
  lia.
Qed.

(** [height * scale]: a double [mp * 2 ^ ep] within half a unit in the
    last place of the exact product of [h] and [scale]. *)
Lemma product_spec h ms es :
  0 < h < 2 ^ 32 -> 2 ^ 52 <= Zpos ms < 2 ^ 53 -> -74 <= es <= -51 ->
  exists mp ep,
    SF64mul (Prim2SF (Number h)) (S754_finite false ms es)
    = S754_finite false mp ep
    /\ 2 ^ 52 <= Zpos mp < 2 ^ 53
    /\ ep < 0
    /\ 2 * Z.abs (Zpos mp * 2 ^ (- es) - h * Zpos ms * 2 ^ (- ep))
       <= 2 ^ (- es).
Proof.
  intros Hh Hms Hes.
  destruct (Number_spec h) as (mh & Eh & Hk & Emh & Hmh); [lia|].
  set (k := 53 - Zdigits2 h) in *.
  assert (Hd : 1 <= Zdigits2 h <= 32).
  { apply (digits_between h 0 32); [lia|]. change (2 ^ 0) with 1. lia. }
  rewrite Eh. unfold SF64mul, SFmul. cbn [xorb].
  set (N := Zpos (mh * ms)).
  assert (HN : N = Zpos mh * Zpos ms) by reflexivity.
  assert (Hq : 2 ^ 104 <= N / 1 < 2 ^ 106).
  { rewrite Z.div_1_r, HN.
    change (2 ^ 104) with (2 ^ 52 * 2 ^ 52).
    change (2 ^ 106) with (2 ^ 53 * 2 ^ 53). nia. }
  pose proof (digits_between _ 104 106 ltac:(lia) Hq) as Hdq.
  destruct (round_aux_value N 1 (- k + es)) as (mp & ep & E & Hmp & Hep & Hb);
    try lia.
  rewrite Z.div_1_r, Z.mod_1_r in *.
  change (location_of 0 1) with loc_Exact in E.
  exists mp, ep. split; [exact E|]. split; [exact Hmp|]. split; [lia|].
  set (t := ep - (- k + es)) in *.
  assert (Ht : 0 <= t) by (subst t; lia).
  set (T := 2 ^ t) in *.
  assert (HT : 0 < T) by (apply Z.pow_pos_nonneg; lia).
  assert (HTA : T * 2 ^ (- ep) = 2 ^ k * 2 ^ (- es)).
  { unfold T. rewrite <- !Z.pow_add_r by (subst t; lia).
    f_equal. subst t. lia. }
  set (A := 2 ^ (- ep)) in *. set (B := 2 ^ (- es)) in *.
  assert (HB : 0 < B) by (apply Z.pow_pos_nonneg; lia).
  assert (EX : T * (Zpos mp * B - h * Zpos ms * A)
               = B * (Zpos mp * (1 * T) - N)).
  { rewrite HN, Emh.
    transitivity (B * Zpos mp * T - h * Zpos ms * (T * A)); [ring|].
    rewrite HTA. ring. }
  apply (Z.mul_le_mono_pos_l _ _ T HT).
  replace (T * (2 * Z.abs (Zpos mp * B - h * Zpos ms * A)))
    with (2 * Z.abs (T * (Zpos mp * B - h * Zpos ms * A)))
    by (rewrite Z.abs_mul, (Z.abs_eq T) by lia; ring).
  rewrite EX, Z.abs_mul, (Z.abs_eq B) by lia.
  replace (1 * T) with T in Hb |- * by ring.
  nia.
Qed.

(** The two rounding errors together: the product the script rounds,
    [mp / A], is within [1 / (2 * w)] of the exact [1920 * h / w], strictly.
    Two distinct multiples of [1 / (2 * w)] are at least that far apart. *)
Lemma error_budget w h ms mp A B :
  1920 < w < 2 ^ 32 -> 0 < h < 2 ^ 32 ->
  2 ^ 52 <= ms < 2 ^ 53 -> 2 ^ 52 <= mp < 2 ^ 53 ->
  0 < A -> 0 < B ->
  2 * Z.abs (ms * w - 1920 * B) <= w ->
  2 * Z.abs (mp * B - h * ms * A) <= B ->
  2 * Z.abs (mp * w - 1920 * h * A) < A.
Proof.
  intros Hw Hh Hms Hmp HA HB H1 H2.
  change (2 ^ 32) with 4294967296 in *.
  change (2 ^ 52) with 4503599627370496 in *.
  change (2 ^ 53) with 9007199254740992 in *.
  assert (G1 : 4503599627370496 * w <= ms * w)
    by (apply Z.mul_le_mono_nonneg_r; lia).
  assert (F1 : 9007199254740991 * w <= 3840 * B) by lia.
  assert (G2 : h * w <= 4294967296 * w)
    by (apply Z.mul_le_mono_nonneg_r; lia).
  assert (F2 : 500 * (h * w) <= B) by lia.
  assert (G3 : 4503599627370496 * B <= mp * B)
    by (apply Z.mul_le_mono_nonneg_r; lia).
  assert (F3 : 9007199254740991 * B <= 2 * (h * ms * A)) by lia.
  assert (F4 : 2 * (ms * w) <= 3841 * B) by lia.
  assert (HhA : 0 < h * A) by (apply Z.mul_pos_pos; lia).
  assert (F5 : 9007199254740991 * B * w <= 3841 * (h * A) * B).
  { apply Z.le_trans with (2 * (h * ms * A) * w).
    - apply Z.mul_le_mono_nonneg_r; lia.
    - replace (2 * (h * ms * A) * w) with (h * A * (2 * (ms * w))) by ring.
      replace (3841 * (h * A) * B) with (h * A * (3841 * B)) by ring.
      apply Z.mul_le_mono_nonneg_l; lia. }
  assert (F6 : 9007199254740991 * w <= 3841 * (h * A)).
  { apply (Z.mul_le_mono_pos_r _ _ B HB).
    replace (9007199254740991 * w * B) with (9007199254740991 * B * w) by ring.
    exact F5. }
  assert (G7 : h * A <= 4294967295 * A)
    by (apply Z.mul_le_mono_nonneg_r; lia).
  assert (F7 : 500 * w <= A) by lia.
  assert (EX : B * (mp * w - 1920 * h * A)
               = w * (mp * B - h * ms * A) + h * A * (ms * w - 1920 * B))
    by ring.
  assert (F8 : 2 * (B * Z.abs (mp * w - 1920 * h * A)) <= w * B + h * A * w).
  { rewrite <- (Z.abs_eq B) at 1 by lia. rewrite <- Z.abs_mul, EX.
    pose proof (Z.abs_triangle (w * (mp * B - h * ms * A))
                               (h * A * (ms * w - 1920 * B))) as Tr.
    rewrite !Z.abs_mul in Tr.
    rewrite (Z.abs_eq w), (Z.abs_eq h), (Z.abs_eq A) in Tr by lia.
    assert (w * (2 * Z.abs (mp * B - h * ms * A)) <= w * B)
      by (apply Z.mul_le_mono_nonneg_l; lia).
    assert (h * A * (2 * Z.abs (ms * w - 1920 * B)) <= h * A * w)
      by (apply Z.mul_le_mono_nonneg_l; lia).
    lia. }
  assert (F9 : 500 * w * B <= A * B)
    by (apply Z.mul_le_mono_nonneg_r; lia).
  assert (F10 : A * (500 * (h * w)) <= A * B)
    by (apply Z.mul_le_mono_nonneg_l; lia).
  assert (HAB : 0 < A * B) by (apply Z.mul_pos_pos; lia).
  apply (Z.mul_lt_mono_pos_l B); [exact HB|].
  replace (A * (500 * (h * w))) with (500 * (h * A * w)) in F10 by ring.
  replace (500 * w * B) with (500 * (w * B)) in F9 by ring.
  replace (B * A) with (A * B) by ring.
  lia.
Qed.

(** A value that close to [1920 * h / w] rounds to the same integer,
    unless the exact quotient lies half-way between two integers; then it
    rounds to that integer or to the one below. *)
Lemma round_arith w h mp A :
  0 < w -> 0 < A -> 0 <= h ->
  2 * Z.abs (mp * w - 1920 * h * A) < A ->
  let k := round_quotient (h * 1920) w in
  let r := (2 * mp + A) / (2 * A) in
  k - 1 <= r <= k /\ ((2 * (h * 1920) + w) mod (2 * w) <> 0 -> r = k).
Proof.
  intros Hw HA Hh Hb k r. unfold round_quotient in k.
  pose proof (Z.div_mod (2 * (h * 1920) + w) (2 * w) ltac:(lia)) as Ek.
  pose proof (Z.mod_pos_bound (2 * (h * 1920) + w) (2 * w) ltac:(lia)) as Hrho.
  fold k in Ek.
  set (rho := (2 * (h * 1920) + w) mod (2 * w)) in *.
  pose proof (Z.div_mod (2 * mp + A) (2 * A) ltac:(lia)) as Er.
  pose proof (Z.mod_pos_bound (2 * mp + A) (2 * A) ltac:(lia)) as Hsig.
  fold r in Er.
  set (sg := (2 * mp + A) mod (2 * A)) in *.
  assert (E1 : (2 * mp + A) * w = 2 * (A * w * r) + sg * w)
    by (rewrite Er at 1; ring).
  assert (E2 : A * (2 * (h * 1920) + w) = 2 * (A * w * k) + A * rho)
    by (rewrite Ek at 1; ring).
  assert (B1 : 0 <= sg * w < 2 * (A * w)).
  { split; [apply Z.mul_nonneg_nonneg; lia|].
    replace (2 * (A * w)) with (2 * A * w) by ring.
    apply Z.mul_lt_mono_pos_r; lia. }
  assert (B2 : 0 <= A * rho <= 2 * (A * w) - A).
  { split; [apply Z.mul_nonneg_nonneg; lia|].
    replace (2 * (A * w) - A) with (A * (2 * w - 1)) by ring.
    apply Z.mul_le_mono_nonneg_l; lia. }
  assert (B3 : rho <> 0 -> A <= A * rho).
  { intros Hn. rewrite <- (Z.mul_1_r A) at 1.
    apply Z.mul_le_mono_nonneg_l; lia. }
  assert (HAw : 0 < A * w) by (apply Z.mul_pos_pos; lia).
  assert (L : A * (2 * (h * 1920) + w) - A < (2 * mp + A) * w
              < A * (2 * (h * 1920) + w) + A) by lia.
  assert (Up : r <= k).
  { destruct (Z_le_gt_dec r k) as [G|G]; [exact G|].
    assert (A * w * (k + 1) <= A * w * r)
      by (apply Z.mul_le_mono_nonneg_l; lia).
    lia. }
  assert (Lo : k - 1 <= r).
  { destruct (Z_le_gt_dec (k - 1) r) as [G|G]; [exact G|].
    assert (A * w * r <= A * w * (k - 2))
      by (apply Z.mul_le_mono_nonneg_l; lia).
    lia. }
  split; [lia|]. intros Hn. specialize (B3 Hn).
  destruct (Z_le_gt_dec k r) as [G|G]; [lia|].
  assert (A * w * r <= A * w * (k - 1))
    by (apply Z.mul_le_mono_nonneg_l; lia).
  lia.
Qed.

(** [Math.round] of a positive double with a negative exponent. *)
Lemma Math_round_finite x m e :
  Prim2SF x = S754_finite false m e -> e < 0 ->
  Math_round x = (2 * Zpos m + 2 ^ (- e)) / (2 * 2 ^ (- e)).
Proof.
  intros E He. unfold Math_round. rewrite E.
  replace (0 <=? e) with false by (symmetry; apply Z.leb_gt; lia).
  replace (1 - e) with (1 + - e) by lia.
  rewrite Z.pow_add_r by lia. reflexivity.
Qed.

Lemma scaledHeight_zero w :
  MAX_WIDTH < w < 2 ^ 32 -> scaledHeight w 0 = 0.
Proof.
  intros Hw. destruct (scale_spec w Hw) as (ms & es & E & _).
  unfold scaledHeight, Math_round. rewrite mul_spec, E.
  reflexivity.
Qed.

(** The height the script computes against the exact rounded quotient,
    for dimensions below [2 ^ 32]. *)
Lemma scaledHeight_rounds w h :
  MAX_WIDTH < w < 2 ^ 32 -> 0 <= h < 2 ^ 32 ->
  round_quotient (h * MAX_WIDTH) w - 1 <= scaledHeight w h
    <= round_quotient (h * MAX_WIDTH) w
  /\ (~ half_way (h * MAX_WIDTH) w ->
      scaledHeight w h = round_quotient (h * MAX_WIDTH) w).
Proof.
  intros Hw Hh. unfold half_way.
  destruct (Z.eq_dec h 0) as [-> | Hn].
  - rewrite scaledHeight_zero by exact Hw. unfold round_quotient, MAX_WIDTH in *.
    replace (2 * (0 * 1920) + w) with w by lia.
    assert (E : w / (2 * w) = 0) by (apply Z.div_small; lia).
    rewrite E. split; [lia|]. intros _. reflexivity.
  - destruct (scale_spec w Hw) as (ms & es & E & Hms & Hes & Hb).
    destruct (product_spec h ms es ltac:(lia) Hms Hes)
      as (mp & ep & Ep & Hmp & Hep & Hb').
    assert (ER : scaledHeight w h
                 = (2 * Zpos mp + 2 ^ (- ep)) / (2 * 2 ^ (- ep))).
    { unfold scaledHeight. apply Math_round_finite; [|exact Hep].
      rewrite mul_spec, E. exact Ep. }
    rewrite ER. unfold MAX_WIDTH in *.
    assert (HA : 0 < 2 ^ (- ep)) by (apply Z.pow_pos_nonneg; lia).
    assert (HB : 0 < 2 ^ (- es)) by (apply Z.pow_pos_nonneg; lia).
    apply round_arith; try lia.
    apply (error_budget w h (Zpos ms) (Zpos mp) _ (2 ^ (- es))); try lia.
Qed.

End Doubles.

(* ================================================================== *)
(** * Properties of the resize step *)

Section Resize.

Variable P : Platform.

(** C4: an image whose decoded width is at most [MAX_WIDTH] comes back
    as the very file that was loaded (the selected file itself, or its
    JPEG conversion when it was HEIC): same bytes, type, name and
    timestamp, and no canvas is handed to the encoder. *)
Theorem small_image_unchanged (file loadable : File) (w w1 : World)
    (image : Image) :
  ensureImageCanLoad P file w = (Ok loadable, w1) ->
  readFileAsImage P loadable w1 = (Ok image, w1) ->
  width image <= MAX_WIDTH ->
  compressImage P file w = (Ok loadable, w1)
  /\ encoded w1 = encoded w
  /\ (isHeicFile file = false -> loadable = file /\ w1 = w).
Proof.
  intros E R Hw. split; [now apply compress_narrow with image|].
  destruct (ensure_cases P file w)
    as [[H E']|[[out [H [_ E']]]|[e [H [_ E']]]]]; rewrite E' in E.
  - injection E as <- <-. auto.
  - injection E as <- <-. split; [reflexivity|]. congruence.
  - discriminate.
Qed.

(** C5, as the script computes it: an image whose decoded width exceeds
    [MAX_WIDTH] is drawn whole onto a canvas of width exactly 1920.  The
    height of the canvas is [Math.round(height * scale)], where
    [scale = 1920 / width] is rounded to a double before the
    multiplication.  For dimensions below 2^32 that height is
    [round(height * 1920 / width)] whenever the exact quotient is not
    half-way between two integers; when it is, the height is that
    integer or the one below it.  The returned file is the JPEG encoding
    of the canvas under the loaded file's name.  A 3000 by 2000 image
    gets a 1920 by 1280 canvas. *)
Theorem wide_image_resized (file loadable : File) (w w1 : World)
    (image : Image) :
  ensureImageCanLoad P file w = (Ok loadable, w1) ->
  readFileAsImage P loadable w1 = (Ok image, w1) ->
  MAX_WIDTH < width image < 2 ^ 32 ->
  0 <= height image < 2 ^ 32 ->
  let canvas := resizedCanvas image in
  let exact := round_quotient (height image * MAX_WIDTH) (width image) in
  canvas_width canvas = 1920
  /\ exact - 1 <= canvas_height canvas <= exact
  /\ (~ half_way (height image * MAX_WIDTH) (width image) ->
      canvas_height canvas = exact)
  /\ drawn canvas = [mkDrawImage image 0 0 1920 (canvas_height canvas)]
  /\ (forall blob,
        toBlob P canvas "image/jpeg" 0.85%float = Some blob ->
        compressImage P file w
        = (Ok (encodedFile P blob loadable (with_encoded canvas w1)),
           with_tick (with_encoded canvas w1)))
  /\ (toBlob P canvas "image/jpeg" 0.85%float = None ->
      compressImage P file w
      = (Throw "Image compression failed.", with_encoded canvas w1))
  /\ scaledHeight 3000 2000 = 1280.
Proof.
  intros E R Hw Hh canvas exact.
  pose proof (compress_wide P _ _ _ _ _ E R (proj1 Hw)) as C.
  destruct (scaledHeight_rounds (width image) (height image) Hw Hh)
    as [Hb Hx].
  split; [reflexivity|]. split; [exact Hb|]. split; [exact Hx|].
  split; [reflexivity|]. split; [|split].
  - intros blob B. rewrite C. now apply await_toBlob_encoded.
  - intros B. rewrite C. now apply await_toBlob_null.
  - vm_compute. reflexivity.
Qed.

(** C1, as the script bounds its output: whenever [compressImage]
    succeeds, the width of what it returns is at most [MAX_WIDTH].
    Either the loaded file decoded to a width of at most 1920 and is
    returned as it is, whatever its height; or it was wider, and the
    result encodes a canvas of width exactly 1920 whose height is the
    image's height times [1920 / width], rounded.  The height itself is
    not bounded. *)
Theorem output_width_bounded (file out : File) (w w' : World) :
  compressImage P file w = (Ok out, w') ->
  exists loadable w1 image,
    ensureImageCanLoad P file w = (Ok loadable, w1)
    /\ readFileAsImage P loadable w1 = (Ok image, w1)
    /\ ((width image <= MAX_WIDTH
         /\ out = loadable
         /\ readFileAsImage P out w' = (Ok image, w')
         /\ encoded w' = encoded w1)
        \/ (MAX_WIDTH < width image
            /\ exists canvas blob,
                 encoded w' = (encoded w1 ++ [canvas])%list
                 /\ toBlob P canvas "image/jpeg" 0.85%float = Some blob
                 /\ data out = blob_data blob
                 /\ type out = "image/jpeg"
                 /\ canvas_width canvas = MAX_WIDTH
                 /\ canvas_height canvas
                    = scaledHeight (width image) (height image))).
Proof.
  intros H. apply compress_ok_inv in H.
  destruct H as [loadable [w1 [image [E [R H]]]]].
  exists loadable, w1, image. split; [exact E|]. split; [exact R|].
  destruct H as [[Hw [-> ->]]|[Hw [blob [B [-> ->]]]]].
  - left. auto.
  - right. split; [exact Hw|].
    exists (resizedCanvas image), blob.
    split; [reflexivity|]. split; [exact B|]. repeat (split; [reflexivity|]).
    reflexivity.
Qed.

(** C6: running [compressImage] again on a file it returned, when that
    file decodes to a width of at most [MAX_WIDTH], returns the same file
    and leaves the page as it is. *)
Theorem resize_idempotent (file out : File) (w w' w2 : World)
    (image : Image) :
  compressImage P file w = (Ok out, w') ->
  readFileAsImage P out w2 = (Ok image, w2) ->
  width image <= MAX_WIDTH ->
  compressImage P out w2 = (Ok out, w2).
Proof.
  intros C R Hw. apply compress_not_heic in C.
  apply compress_narrow with image; [now apply ensure_plain | exact R | exact Hw].
Qed.

End Resize.

(* ================================================================== *)
(** * The pipeline over a batch *)

Section Batch.

Variable P : Platform.

Lemma untouched_refl (w : World) : untouched w w.
Proof. unfold untouched. auto. Qed.

Lemma untouched_trans (w1 w2 w3 : World) :
  untouched w1 w2 -> untouched w2 w3 -> untouched w1 w3.
Proof.
  unfold untouched. intros [A1 [A2 [A3 [A4 A5]]]] [B1 [B2 [B3 [B4 B5]]]].
  repeat split; congruence.
Qed.

Lemma ensure_untouched (file : File) (w w' : World) (r : Result File) :
  ensureImageCanLoad P file w = (r, w') -> untouched w w'.
Proof.
  destruct (ensure_cases P file w)
    as [[_ E]|[[out [_ [_ E]]]|[e [_ [_ E]]]]]; rewrite E;
    intros Q; injection Q as <- <-; unfold untouched; auto.
Qed.

Lemma compress_untouched (file : File) (w w' : World) (r : Result File) :
  compressImage P file w = (r, w') -> untouched w w'.
Proof.
  rewrite compressImage_stages.
  destruct (ensureImageCanLoad P file w) as [[loadable|e] w1] eqn:E;
    apply ensure_untouched in E.
  - destruct (readFileAsImage P loadable w1) as [[image|e] w2] eqn:R;
      pose proof (read_world P _ _ _ _ R); subst w2.
    + destruct (width image <=? MAX_WIDTH).
      * intros Q; injection Q as <- <-. exact E.
      * unfold await_toBlob, bind, modify.
        destruct (toBlob P (resizedCanvas image) "image/jpeg" 0.85%float);
          intros Q; injection Q as <- <-;
          (eapply untouched_trans; [exact E|]); unfold untouched; auto.
    + intros Q; injection Q as <- <-. exact E.
  - intros Q; injection Q as <- <-. exact E.
Qed.

(** The pipeline does not look at the messages. *)
Lemma ensure_with_message (file : File) (w : World) (m : Message) :
  ensureImageCanLoad P file (with_message m w)
  = (fst (ensureImageCanLoad P file w),
     with_message m (snd (ensureImageCanLoad P file w))).
Proof.
  unfold ensureImageCanLoad, convertHeicToJpeg, await_heic2any, bind.
  destruct (isHeicFile file); [|reflexivity].
  destruct (heic2any P file "image/jpeg" 0.9%float); reflexivity.
Qed.

Lemma await_toBlob_with_message (canvas : Canvas) (loadable : File)
    (w : World) (m : Message) :
  await_toBlob P canvas loadable (with_message m w)
  = (fst (await_toBlob P canvas loadable w),
     with_message m (snd (await_toBlob P canvas loadable w))).
Proof.
  unfold await_toBlob, bind, modify.
  destruct (toBlob P canvas "image/jpeg" 0.85%float); reflexivity.
Qed.

Lemma compress_with_message (file : File) (w : World) (m : Message) :
  compressImage P file (with_message m w)
  = (fst (compressImage P file w),
     with_message m (snd (compressImage P file w))).
Proof.
  rewrite !compressImage_stages, ensure_with_message.
  destruct (ensureImageCanLoad P file w) as [[loadable|e] w1];
    [|reflexivity].
  cbn [fst snd].
  rewrite (read_anywhere P loadable w1 (with_message m w1)).
  destruct (readFileAsImage P loadable w1) as [[image|e] w2] eqn:R;
    pose proof (read_world P _ _ _ _ R); subst w2; cbn [fst];
    [|reflexivity].
  destruct (width image <=? MAX_WIDTH); [reflexivity|].
  apply await_toBlob_with_message.
Qed.

(** ** Stage failures are exactly the failures of [compressImage] *)

Lemma stage_failure_throws (file : File) (w w' : World) (e : Error) :
  StageFailure P file w e w' <-> compressImage P file w = (Throw e, w').
Proof.
  split.
  - intros H. rewrite compressImage_stages.
    destruct H as [e w1 E | loadable w1 e E R | loadable w1 image E R Hw B];
      rewrite E; [reflexivity | now rewrite R |].
    rewrite R. apply Z.leb_gt in Hw. rewrite Hw.
    now apply await_toBlob_null.
  - rewrite compressImage_stages.
    destruct (ensureImageCanLoad P file w) as [[loadable|e1] w1] eqn:E.
    + destruct (readFileAsImage P loadable w1) as [[image|e2] w2] eqn:R;
        pose proof (read_world P _ _ _ _ R); subst w2.
      * destruct (width image <=? MAX_WIDTH) eqn:Hw; [discriminate|].
        apply Z.leb_gt in Hw.
        destruct (toBlob P (resizedCanvas image) "image/jpeg" 0.85%float)
          as [blob|] eqn:B.
        -- rewrite (await_toBlob_encoded P _ _ _ _ B). discriminate.
        -- rewrite (await_toBlob_null P _ _ _ B).
           intros Q; injection Q as <- <-.
           now apply ReencodeFailed with loadable.
      * intros Q; injection Q as <- <-. now apply DecodeFailed with loadable.
    + intros Q; injection Q as <- <-. now apply NormalizationFailed.
Qed.

(** ** [prepareCompressedFiles] *)

Lemma prepare_loop_cons (file : File) (rest acc : list File) (w : World) :
  prepare_loop P (file :: rest) acc w =
  match compressImage P file w with
  | (Ok out, w1) => prepare_loop P rest (acc ++ [out]) w1
  | (Throw e, w1) =>
      (Throw e, with_message NotProcessed (with_console "Compression error:" w1))
  end.
Proof.
  cbn [prepare_loop]. unfold bind at 1. unfold try_catch.
  destruct (compressImage P file w) as [[out|e] w1]; reflexivity.
Qed.

(** When the loop throws, the diagnostic is on the page and nothing else
    of the page has moved but the console. *)
Lemma prepare_loop_throws (files acc : list File) (w w' : World) (e : Error) :
  prepare_loop P files acc w = (Throw e, w') ->
  messageEl w' = NotProcessed
  /\ requests w' = requests w
  /\ selectedFiles w' = selectedFiles w.
Proof.
  revert acc w. induction files as [|file rest IH]; intros acc w.
  - discriminate.
  - rewrite prepare_loop_cons.
    destruct (compressImage P file w) as [[out|e1] w1] eqn:C;
      apply compress_untouched in C; destruct C as [S [_ [_ [_ R]]]].
    + intros H. apply IH in H. destruct H as [H1 [H2 H3]].
      repeat split; congruence.
    + intros Q; injection Q as <- <-.
      split; [|split]; [|exact R|exact S].
      unfold messageEl. cbn [messages with_message]. apply last_last.
Qed.

(** One file whose pipeline fails wherever it is run is enough for the
    loop to throw. *)
Lemma prepare_loop_aborts (files acc : list File) (w : World) :
  Exists (fun file => forall w0, exists e w0', StageFailure P file w0 e w0')
         files ->
  exists e w', prepare_loop P files acc w = (Throw e, w').
Proof.
  intros H. revert acc w.
  induction H as [file rest H | file rest H IH]; intros acc w;
    rewrite prepare_loop_cons.
  - destruct (H w) as [e [w1 F]]. apply stage_failure_throws in F.
    rewrite F. eauto.
  - destruct (compressImage P file w) as [[out|e] w1]; eauto.
Qed.

(** The loop over a batch cut in two. *)
Lemma prepare_loop_app (before rest acc : list File) (w : World) :
  prepare_loop P (before ++ rest) acc w =
  match prepare_loop P before acc w with
  | (Ok outs, w1) => prepare_loop P rest outs w1
  | (Throw e, w1) => (Throw e, w1)
  end.
Proof.
  revert acc w. induction before as [|file l IH]; intros acc w.
  - reflexivity.
  - cbn [app]. rewrite !prepare_loop_cons.
    destruct (compressImage P file w) as [[out|e] w1]; [apply IH|reflexivity].
Qed.

(** A stage failing in the batch makes the loop throw. *)
Lemma stage_failure_aborts (files : list File) (w : World) :
  stage_fails_in P files w ->
  exists e w', prepareCompressedFiles P files w = (Throw e, w').
Proof.
  intros [H|[before [file [after [outs [w1 [e [w2 [-> [B F]]]]]]]]]].
  - now apply prepare_loop_aborts.
  - unfold prepareCompressedFiles in *.
    rewrite prepare_loop_app, B, prepare_loop_cons.
    apply stage_failure_throws in F. rewrite F. eauto.
Qed.

(** When the loop returns, every file went through [compressImage], in
    order. *)
Lemma prepare_loop_ok (files acc outs : list File) (w w' : World) :
  prepare_loop P files acc w = (Ok outs, w') ->
  exists news,
    outs = (acc ++ news)%list
    /\ Forall2 (fun file out =>
                  exists wa wb, compressImage P file wa = (Ok out, wb))
               files news.
Proof.
  revert acc w. induction files as [|file rest IH]; intros acc w.
  - intros Q; injection Q as <- <-. exists []. split; [|constructor].
    now rewrite app_nil_r.
  - rewrite prepare_loop_cons.
    destruct (compressImage P file w) as [[out|e1] w1] eqn:C; [|discriminate].
    intros H. apply IH in H. destruct H as [news [-> F]].
    exists (out :: news). split; [now rewrite <- app_assoc|].
    constructor; [|exact F]. eauto.
Qed.

End Batch.

(* ================================================================== *)
(** * The [change] listener *)

Section Validation.

Variable P : Platform.

Lemma change_step_spec (file : File) (w : World) :
  exists w',
    change_step P file w = (Ok tt, w')
    /\ selectedFiles w'
       = (selectedFiles w ++ if accepted file then [file] else [])%list
    /\ messages w' = (messages w ++ step_messages P file)%list
    /\ requests w' = requests w.
Proof.
  unfold change_step, step_messages, accepted.
  destruct (isValidImage file); cbn [negb andb].
  - destruct (size file >? MAX_FILE_SIZE_BYTES); cbn [negb].
    + eexists. split; [reflexivity|].
      cbn. rewrite app_nil_r. auto.
    + unfold bind, push_selected, modify, try_catch, ensureImageCanLoad,
        convertHeicToJpeg, await_heic2any, bind.
      destruct (isHeicFile file).
      * destruct (heic2any P file "image/jpeg" 0.9%float);
          eexists; (split; [reflexivity|]); cbn;
          rewrite ?app_nil_r; auto.
      * eexists. split; [reflexivity|]. cbn. rewrite app_nil_r. auto.
  - eexists. split; [reflexivity|]. cbn. rewrite app_nil_r. auto.
Qed.

Lemma change_loop_spec (files : list File) (w : World) :
  exists w',
    change_loop P files w = (Ok tt, w')
    /\ selectedFiles w' = (selectedFiles w ++ filter accepted files)%list
    /\ messages w' = (messages w ++ flat_map (step_messages P) files)%list
    /\ requests w' = requests w.
Proof.
  revert w. induction files as [|file rest IH]; intros w.
  - exists w. cbn. rewrite !app_nil_r. auto.
  - destruct (change_step_spec file w) as [w1 [E [S [Ms R]]]].
    destruct (IH w1) as [w' [E' [S' [Ms' R']]]].
    exists w'. cbn [change_loop flat_map filter]. unfold bind. rewrite E.
    split; [exact E'|].
    rewrite S', Ms', R', S, Ms, R, <- !app_assoc.
    destruct (accepted file); auto.
Qed.

(** The end of the listener, once the loop has run: the test on the
    selection and the last message. *)
Ltac finish_change E S Ms R :=
  unfold bind at 1; rewrite E;
  unfold bind, gets; rewrite S;
  cbn [selectedFiles with_message with_previews with_selectedFiles app];
  rewrite ?andb_true_r;
  match goal with
  | |- context [if ?b then _ else _] => destruct b
  end;
  (eexists; split; [reflexivity|]);
  cbn [selectedFiles messages requests with_message setMessage modify];
  rewrite ?S, ?Ms, ?R; cbn; rewrite <- ?app_assoc, ?app_nil_r; auto.

(** What a run of the listener leaves on the page. *)
Lemma onChange_spec (files : list File) (w : World) :
  exists w',
    onChange P files w = (Ok tt, w')
    /\ selectedFiles w' = filter accepted (slice_MAX_FILES files)
    /\ messages w' = (messages w ++ onChange_messages P files)%list
    /\ requests w' = requests w.
Proof.
  unfold onChange, onChange_messages.
  unfold bind at 1. unfold modify at 1.
  unfold bind at 1. unfold resetPreview at 1. unfold modify at 1.
  unfold bind at 1. unfold setMessage at 1. unfold modify at 1.
  set (w0 := with_message ("", "")
               (with_previews [] (with_selectedFiles [] w))).
  destruct (Z.of_nat (List.length files) =? 0) eqn:Hz.
  - assert (files = [])
      by (destruct files; [reflexivity | apply Z.eqb_eq in Hz; cbn in Hz; lia]).
    subst files. exists w0. cbn. auto.
  - assert (Hp : (Z.of_nat (List.length files) >? 0) = true)
      by (apply Z.gtb_gt; apply Z.eqb_neq in Hz; lia).
    rewrite Hp, andb_true_r.
    destruct (Z.of_nat (List.length files) >? MAX_FILES) eqn:Hm.
    + unfold bind at 1. unfold setMessage at 1. unfold modify at 1.
      destruct (change_loop_spec (slice_MAX_FILES files)
                  (with_message (text_max_files, "error") w0))
        as [w1 [E [S [Ms R]]]].
      subst w0. finish_change E S Ms R.
    + unfold bind at 1. unfold ret at 1.
      destruct (change_loop_spec (slice_MAX_FILES files) w0)
        as [w1 [E [S [Ms R]]]].
      subst w0. finish_change E S Ms R.
Qed.

End Validation.

(* ================================================================== *)
(** * The [submit] listener *)

Section Submission.

Variable P : Platform.

(** Whatever the server answers, the form was sent once. *)
Lemma upload_requests (form : list FormEntry) (w w' : World)
    (r : Result unit) :
  upload P form w = (r, w') -> requests w' = (requests w ++ [form])%list.
Proof.
  unfold upload, bind, modify, setMessage, modify, throw.
  destruct (send P (API_BASE_URL ++ "/upload") form)
    as [status [|e|[|] err]|];
    try destruct ((200 <=? status) && (status <? 300));
    intros Q; injection Q as <- <-; reflexivity.
Qed.

Lemma onSubmit_stages (w : World) :
  selectedFiles w <> [] ->
  onSubmit P w =
  match prepareCompressedFiles P (selectedFiles w) (with_message ("", "") w) with
  | (Throw e, w1) => (Ok tt, with_console "Upload error:" w1)
  | (Ok outs, w1) =>
      try_catch
        (upload P (formOf outs) ;; modify (with_selectedFiles []) ;;
         resetPreview)
        (fun error => console_error "Upload error:") w1
  end.
Proof.
  intros H. unfold onSubmit. unfold bind at 1. unfold gets at 1.
  destruct (selectedFiles w) as [|f l] eqn:S; [congruence|].
  cbn [List.length Z.of_nat Z.eqb].
  unfold bind at 1. unfold setMessage at 1. unfold modify at 1.
  unfold try_catch at 1. unfold bind at 1.
  destruct (prepareCompressedFiles P (f :: l) (with_message ("", "") w))
    as [[outs|e] w1]; reflexivity.
Qed.

(** A failed preparation ends the submission before anything is sent. *)
Lemma onSubmit_aborted (w w1 : World) (e : Error) :
  selectedFiles w <> [] ->
  prepareCompressedFiles P (selectedFiles w) (with_message ("", "") w)
  = (Throw e, w1) ->
  onSubmit P w = (Ok tt, with_console "Upload error:" w1).
Proof. intros H E. rewrite onSubmit_stages, E; auto. Qed.

(** A successful preparation is followed by one request carrying the
    prepared files, in order. *)
Lemma onSubmit_uploads (w w1 : World) (outs : list File) :
  selectedFiles w <> [] ->
  prepareCompressedFiles P (selectedFiles w) (with_message ("", "") w)
  = (Ok outs, w1) ->
  exists w2,
    onSubmit P w = (Ok tt, w2)
    /\ requests w2 = (requests w1 ++ [formOf outs])%list.
Proof.
  intros H E. rewrite onSubmit_stages, E by exact H.
  unfold try_catch. unfold bind at 1.
  destruct (upload P (formOf outs) w1) as [[[]|e] w2] eqn:U;
    apply upload_requests in U.
  - eexists. split; [reflexivity|]. exact U.
  - eexists. split; [reflexivity|]. exact U.
Qed.

End Submission.

(* ================================================================== *)
(** * Properties of the batch *)

Section Claims.

Variable P : Platform.

Lemma occurrences_app (m : Message) (l1 l2 : list Message) :
  occurrences m (l1 ++ l2) = (occurrences m l1 + occurrences m l2)%nat.
Proof. unfold occurrences. now rewrite filter_app, length_app. Qed.

(** No per-file diagnostic is the advisory about the count. *)
Lemma step_messages_not_max (file : File) :
  occurrences TooManyFiles (step_messages P file) = 0%nat.
Proof.
  unfold step_messages.
  destruct (negb (isValidImage file)); [reflexivity|].
  destruct (size file >? MAX_FILE_SIZE_BYTES); [reflexivity|].
  destruct (isHeicFile file); [|reflexivity].
  destruct (heic2any P file "image/jpeg" 0.9%float); reflexivity.
Qed.

Lemma loop_messages_not_max (files : list File) :
  occurrences TooManyFiles (flat_map (step_messages P) files) = 0%nat.
Proof.
  induction files as [|file rest IH]; [reflexivity|].
  cbn [flat_map]. now rewrite occurrences_app, step_messages_not_max, IH.
Qed.

Lemma rejected_not_selected (files : list File) (file : File) :
  accepted file = false -> ~ In file (filter accepted files).
Proof. intros H I. apply filter_In in I. destruct I as [_ I]. congruence. Qed.

Lemma step_messages_in (files : list File) (file : File) (m : Message) :
  In file files -> In m (step_messages P file) ->
  In m (flat_map (step_messages P) files).
Proof. intros I H. apply in_flat_map. now exists file. Qed.

Lemma loop_messages_shown (files : list File) (m : Message) :
  In m (flat_map (step_messages P) (slice_MAX_FILES files)) ->
  In m (onChange_messages P files).
Proof.
  intros H. unfold onChange_messages.
  apply in_or_app. right. apply in_or_app. right. apply in_or_app. now left.
Qed.

(** A file that is not an image is shown [NotAnImage]. *)
Lemma not_image_message (file : File) :
  isValidImage file = false -> In NotAnImage (step_messages P file).
Proof. unfold step_messages. intros ->. now left. Qed.

(** An image that is too large is shown [FileTooLarge]. *)
Lemma too_large_message (file : File) :
  isValidImage file = true -> MAX_FILE_SIZE_BYTES < size file ->
  In (FileTooLarge file) (step_messages P file).
Proof.
  unfold step_messages. intros -> H.
  apply Z.gtb_lt in H. rewrite H. now left.
Qed.






(** C3: when more than [MAX_FILES] files are selected, the listener keeps
    the files that pass the checks among the first ten, in their order;
    the advisory about the count is shown exactly once in the run; and
    the run is the same for any other selection of more than ten files
    that starts with the same ten. *)
Theorem too_many_files_truncated (files : list File) (w : World) :
  MAX_FILES < Z.of_nat (List.length files) ->
  exists w',
    onChange P files w = (Ok tt, w')
    /\ selectedFiles w' = filter accepted (firstn 10 files)
    /\ messages w' = (messages w ++ onChange_messages P files)%list
    /\ occurrences TooManyFiles (onChange_messages P files) = 1%nat
    /\ (forall files',
          MAX_FILES < Z.of_nat (List.length files') ->
          firstn 10 files' = firstn 10 files ->
          onChange P files' w = onChange P files w).
Proof.
  intros H.
  destruct (onChange_spec P files w) as [w' [E [S [Ms _]]]].
  exists w'. split; [exact E|]. split; [exact S|]. split; [exact Ms|].
  split.
  - unfold onChange_messages. apply Z.gtb_lt in H. rewrite H.
    rewrite !occurrences_app, loop_messages_not_max.
    destruct (_ && _); reflexivity.
  - intros files' H' F. unfold onChange, slice_MAX_FILES.
    change (Z.to_nat MAX_FILES) with 10%nat. rewrite F.
    assert (Z : forall l : list File, MAX_FILES < Z.of_nat (List.length l) ->
                (Z.of_nat (List.length l) =? 0) = false
                /\ (Z.of_nat (List.length l) >? MAX_FILES) = true
                /\ (Z.of_nat (List.length l) >? 0) = true).
    { unfold MAX_FILES. intros l Hl. split; [apply Z.eqb_neq; lia|].
      split; apply Z.gtb_lt; lia. }
    destruct (Z files H) as [A1 [A2 A3]].
    destruct (Z files' H') as [B1 [B2 B3]].
    now rewrite A1, A2, A3, B1, B2, B3.
Qed.

(** C2, as the listener orders its checks: a file among those kept
    whose size exceeds [MAX_FILE_SIZE_BYTES] is never selected; it is
    shown [FileTooLarge] when it passes the type check, and [NotAnImage]
    when it does not, the type being checked first. *)
Theorem oversized_file_rejected (files : list File) (w : World) (file : File) :
  In file (slice_MAX_FILES files) ->
  MAX_FILE_SIZE_BYTES < size file ->
  exists w',
    onChange P files w = (Ok tt, w')
    /\ messages w' = (messages w ++ onChange_messages P files)%list
    /\ (isValidImage file = true ->
        In (FileTooLarge file) (onChange_messages P files))
    /\ (isValidImage file = false ->
        In NotAnImage (onChange_messages P files))
    /\ ~ In file (selectedFiles w').
Proof.
  intros I H.
  destruct (onChange_spec P files w) as [w' [E [S [Ms _]]]].
  exists w'. split; [exact E|]. split; [exact Ms|].
  split; [|split].
  - intros V. apply loop_messages_shown.
    apply step_messages_in with file; [exact I|].
    now apply too_large_message.
  - intros V. apply loop_messages_shown.
    apply step_messages_in with file; [exact I|].
    now apply not_image_message.
  - rewrite S. apply rejected_not_selected. unfold accepted.
    apply Z.gtb_lt in H. rewrite H. apply andb_false_r.
Qed.


End Claims.

(* ================================================================== *)
(** * Failure of a stage, and what reaches the server *)

Section Orchestration.

Variable P : Platform.

(** C8: when a stage of the pipeline (normalisation, decoding or
    re-encoding) fails on a file of the batch, [prepareCompressedFiles]
    throws instead of returning files, with the diagnostic on the page
    and no request sent.  The submit listener prepares the selection on
    the page [w0] of the event once its message is cleared; when that is
    the page [w] of the failing preparation, the submission ends with no
    request sent, the diagnostic still shown and the selection kept. *)
Theorem failed_stage_aborts_batch (files : list File) (w : World) :
  stage_fails_in P files w ->
  (exists e w',
     prepareCompressedFiles P files w = (Throw e, w')
     /\ messageEl w' = NotProcessed
     /\ requests w' = requests w)
  /\ (forall w0,
        selectedFiles w0 = files ->
        with_message ("", "") w0 = w ->
        exists w',
          onSubmit P w0 = (Ok tt, w')
          /\ requests w' = requests w0
          /\ messageEl w' = NotProcessed
          /\ selectedFiles w' = files).
Proof.
  intros H.
  destruct (stage_failure_aborts P files w H) as [e [w' E]].
  pose proof (prepare_loop_throws P _ _ _ _ _ E) as [M [R Sel]].
  split.
  - exists e, w'. auto.
  - intros w0 S <-.
    assert (Hne : selectedFiles w0 <> []).
    { rewrite S. intros ->. unfold prepareCompressedFiles in E.
      discriminate E. }
    exists (with_console "Upload error:" w').
    split; [apply onSubmit_aborted with e; [exact Hne | now rewrite S]|].
    split; [exact R|]. split; [exact M|]. now rewrite <- S.
Qed.

(** C10: the decision looks at the width alone.  An image whose decoded
    width is at most [MAX_WIDTH] is returned untouched however tall it
    is; with a height above 1920 it is prepared unchanged and, once
    submitted, sent as the only entry of the form, still decoding to the
    same tall image. *)
Theorem tall_image_passes_through (file loadable : File) (w w1 : World)
    (image : Image) :
  ensureImageCanLoad P file w = (Ok loadable, w1) ->
  readFileAsImage P loadable w1 = (Ok image, w1) ->
  width image <= MAX_WIDTH ->
  MAX_WIDTH < height image ->
  compressImage P file w = (Ok loadable, w1)
  /\ prepareCompressedFiles P [file] w = (Ok [loadable], w1)
  /\ (selectedFiles w = [file] ->
      exists w2,
        onSubmit P w = (Ok tt, w2)
        /\ requests w2
           = (requests w ++ [[mkFormEntry "photos" loadable (name loadable)]])%list
        /\ readFileAsImage P loadable w2 = (Ok image, w2)).
Proof.
  intros E R Hw Hh.
  pose proof (compress_narrow P _ _ _ _ _ E R Hw) as C.
  split; [exact C|]. split.
  - unfold prepareCompressedFiles. now rewrite prepare_loop_cons, C.
  - intros S.
    assert (Hne : selectedFiles w <> []) by (rewrite S; discriminate).
    assert (Q : prepareCompressedFiles P (selectedFiles w)
                  (with_message ("", "") w)
                = (Ok [loadable], with_message ("", "") w1)).
    { rewrite S. unfold prepareCompressedFiles.
      now rewrite prepare_loop_cons, compress_with_message, C. }
    destruct (onSubmit_uploads P _ _ _ Hne Q) as [w2 [O Rq]].
    exists w2. split; [exact O|]. split.
    + rewrite Rq. apply ensure_untouched in E.
      destruct E as [_ [_ [_ [_ E]]]]. cbn [requests with_message].
      now rewrite E.
    + now apply read_moved with w1.
Qed.

(** C7: [isHeicFile] holds exactly for the files of a proprietary format:
    a declared type of [image/heic] or [image/heif], or a name ending in
    [.heic] or [.heif] whatever the letter case.  A file named
    [photo.heic] with an empty declared type is detected, and when the
    conversion succeeds it comes back as the JPEG file [photo.jpg]
    holding the first blob of the conversion. *)
Theorem heic_detection :
  (forall file, isHeicFile file = true <-> proprietary_format file)
  /\ (forall file w out,
        name file = "photo.heic" ->
        type file = "" ->
        heic2any P file "image/jpeg" 0.9%float = inr out ->
        isHeicFile file = true
        /\ exists converted,
             ensureImageCanLoad P file w = (Ok converted, with_tick w)
             /\ name converted = "photo.jpg"
             /\ type converted = "image/jpeg"
             /\ data converted = part_data (first_blob out)
             /\ lastModified converted = now P (ticks w)).
Proof.
  split; [exact isHeicFile_proprietary|].
  intros file w out Hn Ht Hc.
  assert (H : isHeicFile file = true)
    by (unfold isHeicFile; rewrite Hn, Ht; reflexivity).
  split; [exact H|].
  exists (convertedFile P out file w).
  split; [now apply ensure_converted|].
  unfold convertedFile. rewrite Hn.
  repeat (split; [reflexivity|]). reflexivity.
Qed.

End Orchestration.

(* ================================================================== *)
(** * The script at work on the concrete platform *)

Module Examples.

Import Demo.

(** A 3000 by 2000 photo is drawn on a 1920 by 1280 canvas. *)
Example landscape_resized :
  compressImage platform landscape initial
  = (Ok (mkFile "landscape.jpg" "image/jpeg" 4 1700000000000
                (picture 1920 1280)),
     mkWorld [] [] [] []
             [mkCanvas 1920 1280
                [mkDrawImage (loaded "image/jpeg" 3000 2000) 0 0 1920 1280]]
             [] 1).
Proof. vm_compute. reflexivity. Qed.

(** A HEIC photo is converted, renamed and then resized. *)
Example iphone_prepared :
  fst (compressImage platform iphone initial)
  = Ok (mkFile "photo.jpg" "image/jpeg" 4 1700000000001 (picture 1920 1440)).
Proof. vm_compute. reflexivity. Qed.

(** Twelve files selected: ten kept, the advisory shown. *)
Example dozen_selected :
  let w := snd (onChange platform dozen initial) in
  selectedFiles w = firstn 10 dozen /\ messages w = [("", ""); TooManyFiles].
Proof. vm_compute. split; reflexivity. Qed.

(** ** Inputs on which a sentence of the specification fails *)

(** A 1000 by 3000 photo, taller than 1920, is returned as it was: the
    file handed on still decodes to a height of 3000. *)
Lemma tall_image_stays_tall :
  readFileAsImage platform tall initial
  = (Ok (loaded "image/jpeg" 1000 3000), initial)
  /\ compressImage platform tall initial = (Ok tall, initial)
  /\ MAX_WIDTH < height (loaded "image/jpeg" 1000 3000).
Proof. split; [|split]; vm_compute; reflexivity. Qed.

(** Wide and very tall: 2000 by 10000 is scaled to 1920 by 9600, still
    far above 1920 in height. *)
Example wide_and_tall_resized :
  map (fun c => (canvas_width c, canvas_height c))
      (encoded (snd (compressImage platform
                       (photo "scroll.png" "image/png" 2000 10000) initial)))
  = [(1920, 9600)].
Proof. vm_compute. reflexivity. Qed.

(** The same rounding at the size of a photograph: 2816 by 1133 gets a
    height of 772, while [1133 * 1920 / 2816] is exactly 772.5. *)
Example photograph_rounds_down :
  scaledHeight 2816 1133 = 772 /\ round_quotient (1133 * 1920) 2816 = 773.
Proof. split; vm_compute; reflexivity. Qed.

(** A quotient half-way between two integers is not always rounded
    down: 3840 by 1 gives a height of 1, as [1920 / 3840] and its product
    by 1 are exact. *)
Example half_way_rounds_up :
  half_way (1 * 1920) 3840
  /\ scaledHeight 3840 1 = 1 /\ round_quotient (1 * 1920) 3840 = 1.
Proof. repeat split; vm_compute; reflexivity. Qed.

(** A 2816 by 11 photo: [11 * 1920 / 2816] is exactly 7.5, which rounds
    to 8, but the script multiplies 11 by the double nearest to
    [1920 / 2816] and gets a product just below 7.5, hence a canvas 7
    pixels high.  The quotient lies half-way between 7 and 8. *)
Lemma sliver_rounds_down :
  readFileAsImage platform sliver initial
  = (Ok (loaded "image/jpeg" 2816 11), initial)
  /\ map canvas_height (encoded (snd (compressImage platform sliver initial)))
     = [7]
  /\ fst (compressImage platform sliver initial)
     = Ok (mkFile "sliver.jpg" "image/jpeg" 4 1700000000000 (picture 1920 7))
  /\ round_quotient (11 * 1920) 2816 = 8
  /\ half_way (11 * 1920) 2816.
Proof. repeat split; vm_compute; reflexivity. Qed.

(** A PDF of 30 million bytes is turned away as not an image; the
    message about its size is never shown. *)
Lemma oversized_pdf_is_not_an_image :
  MAX_FILE_SIZE_BYTES < size scan
  /\ In scan (slice_MAX_FILES [scan])
  /\ messages (snd (onChange platform [scan] initial))
     = [("", ""); NotAnImage; NoValidFiles]
  /\ ~ In (FileTooLarge scan)
          (messages (snd (onChange platform [scan] initial))).
Proof.
  split; [reflexivity|]. split; [now left|].
  assert (E : messages (snd (onChange platform [scan] initial))
              = [("", ""); NotAnImage; NoValidFiles])
    by (vm_compute; reflexivity).
  split; [exact E|]. rewrite E.
  intros [H|[H|[H|[]]]]; vm_compute in H; discriminate H.
Qed.


(** ** The theorems at concrete inputs *)

Lemma small_image_unchanged_witness :
  compressImage platform small initial = (Ok small, initial)
  /\ encoded initial = encoded initial
  /\ (isHeicFile small = false -> small = small /\ initial = initial).
Proof.
  apply (small_image_unchanged platform small small initial initial
           (loaded "image/jpeg" 800 600));
    [reflexivity | reflexivity | vm_compute; discriminate].
Defined.

Lemma wide_image_resized_witness :
  canvas_width (resizedCanvas (loaded "image/jpeg" 3000 2000)) = 1920
  /\ canvas_height (resizedCanvas (loaded "image/jpeg" 3000 2000)) = 1280.
Proof.
  assert (Hw : MAX_WIDTH < width (loaded "image/jpeg" 3000 2000) < 2 ^ 32)
    by (split; reflexivity).
  assert (Hh : 0 <= height (loaded "image/jpeg" 3000 2000) < 2 ^ 32)
    by (split; [discriminate | reflexivity]).
  destruct (wide_image_resized platform landscape landscape initial initial
              (loaded "image/jpeg" 3000 2000) eq_refl eq_refl Hw Hh)
    as [Hc [_ [Hx _]]].
  split; [exact Hc|]. apply Hx.
  unfold half_way. vm_compute. discriminate.
Defined.

Lemma output_width_bounded_witness :
  exists loadable w1 image,
    ensureImageCanLoad platform landscape initial = (Ok loadable, w1)
    /\ readFileAsImage platform loadable w1 = (Ok image, w1)
    /\ width image = 3000.
Proof.
  destruct (output_width_bounded platform landscape _ initial _
              landscape_resized)
    as [loadable [w1 [image [E [R _]]]]].
  exists loadable, w1, image. split; [exact E|]. split; [exact R|].
  vm_compute in E. injection E as <- <-.
  vm_compute in R. injection R as <-. reflexivity.
Defined.

Lemma resize_idempotent_witness :
  compressImage platform
    (mkFile "landscape.jpg" "image/jpeg" 4 1700000000000 (picture 1920 1280))
    initial
  = (Ok (mkFile "landscape.jpg" "image/jpeg" 4 1700000000000
                (picture 1920 1280)),
     initial).
Proof.
  apply (resize_idempotent platform landscape _ initial _ initial
           (loaded "image/jpeg" 1920 1280) landscape_resized);
    [reflexivity | vm_compute; discriminate].
Defined.

Lemma tall_image_passes_through_witness :
  compressImage platform tall (selecting [tall])
  = (Ok tall, selecting [tall])
  /\ prepareCompressedFiles platform [tall] (selecting [tall])
     = (Ok [tall], selecting [tall])
  /\ (selectedFiles (selecting [tall]) = [tall] ->
      exists w2,
        onSubmit platform (selecting [tall]) = (Ok tt, w2)
        /\ requests w2
           = (requests (selecting [tall])
                ++ [[mkFormEntry "photos" tall (name tall)]])%list
        /\ readFileAsImage platform tall w2
           = (Ok (loaded "image/jpeg" 1000 3000), w2)).
Proof.
  apply (tall_image_passes_through platform tall tall (selecting [tall])
           (selecting [tall]) (loaded "image/jpeg" 1000 3000));
    [reflexivity | reflexivity | vm_compute; discriminate | reflexivity].
Defined.

Lemma heic_detection_witness :
  isHeicFile iphone = true
  /\ exists converted,
       ensureImageCanLoad platform iphone initial
       = (Ok converted, with_tick initial)
       /\ name converted = "photo.jpg"
       /\ type converted = "image/jpeg"
       /\ data converted
          = part_data (first_blob
                         (OneBlob (mkBlob 4 "image/jpeg" (picture 4032 3024))))
       /\ lastModified converted = now platform (ticks initial).
Proof.
  apply (proj2 (heic_detection platform) iphone initial
           (OneBlob (mkBlob 4 "image/jpeg" (picture 4032 3024))));
    reflexivity.
Defined.

Lemma failed_stage_aborts_batch_witness :
  (exists e w',
     prepareCompressedFiles platform [small; broken]
       (with_message ("", "") (selecting [small; broken])) = (Throw e, w')
     /\ messageEl w' = NotProcessed
     /\ requests w'
        = requests (with_message ("", "") (selecting [small; broken])))
  /\ (forall w0,
        selectedFiles w0 = [small; broken] ->
        with_message ("", "") w0
        = with_message ("", "") (selecting [small; broken]) ->
        exists w',
          onSubmit platform w0 = (Ok tt, w')
          /\ requests w' = requests w0
          /\ messageEl w' = NotProcessed
          /\ selectedFiles w' = [small; broken]).
Proof.
  apply (failed_stage_aborts_batch platform [small; broken]
           (with_message ("", "") (selecting [small; broken]))).
  right. exists [small], broken, [], [small].
  exists (with_message ("", "") (selecting [small; broken])).
  exists "Failed to load image.".
  exists (with_message ("", "") (selecting [small; broken])).
  split; [reflexivity|]. split; [reflexivity|].
  apply DecodeFailed with broken; reflexivity.
Defined.

(** The submission of a selection holding a broken file, run through. *)
Example broken_file_blocks_upload :
  onSubmit platform (selecting [small; broken])
  = (Ok tt,
     mkWorld [small; broken] [("", ""); NotProcessed]
             ["Compression error:"; "Upload error:"] [] [] [] 0).
Proof. vm_compute. reflexivity. Qed.

Lemma too_many_files_truncated_witness :
  exists w',
    onChange platform dozen initial = (Ok tt, w')
    /\ selectedFiles w' = filter accepted (firstn 10 dozen)
    /\ messages w' = (messages initial ++ onChange_messages platform dozen)%list
    /\ occurrences TooManyFiles (onChange_messages platform dozen) = 1%nat
    /\ (forall files',
          MAX_FILES < Z.of_nat (List.length files') ->
          firstn 10 files' = firstn 10 dozen ->
          onChange platform files' initial = onChange platform dozen initial).
Proof.
  apply (too_many_files_truncated platform dozen initial). reflexivity.
Defined.

Lemma oversized_file_rejected_witness :
  exists w',
    onChange platform [poster] initial = (Ok tt, w')
    /\ messages w'
       = (messages initial ++ onChange_messages platform [poster])%list
    /\ (isValidImage poster = true ->
        In (FileTooLarge poster) (onChange_messages platform [poster]))
    /\ (isValidImage poster = false ->
        In NotAnImage (onChange_messages platform [poster]))
    /\ ~ In poster (selectedFiles w').
Proof.
  apply (oversized_file_rejected platform [poster] initial poster);
    [now left | reflexivity].
Defined.


(** The same selection run through: the PDF and the oversized poster are
    turned away, the small photo alone is selected and prepared. *)
Example rejected_files_run :
  let w := snd (onChange platform [scan; poster; small] initial) in
  messages w = [("", ""); NotAnImage; FileTooLarge poster]
  /\ selectedFiles w = [small]
  /\ fst (prepareCompressedFiles platform (selectedFiles w) w) = Ok [small].
Proof. vm_compute. repeat split. Qed.

End Examples.

(* ================================================================== *)
(** * More on the [change] listener *)

Section Selection.

Variable P : Platform.

Lemma message_eqb_refl (m : Message) : message_eqb m m = true.
Proof. unfold message_eqb. now rewrite !String.eqb_refl. Qed.

Lemma occurrences_none (m : Message) (l : list Message) :
  occurrences m l = 0%nat -> ~ In m l.
Proof.
  unfold occurrences. induction l as [|x l IH]; intros H I; [exact I|].
  cbn [filter] in H. destruct I as [->|I].
  - rewrite message_eqb_refl in H. discriminate H.
  - destruct (message_eqb m x); [discriminate H | now apply IH].
Qed.

Lemma step_messages_not_none (file : File) :
  occurrences NoValidFiles (step_messages P file) = 0%nat.
Proof.
  unfold step_messages.
  destruct (negb (isValidImage file)); [reflexivity|].
  destruct (size file >? MAX_FILE_SIZE_BYTES); [reflexivity|].
  destruct (isHeicFile file); [|reflexivity].
  destruct (heic2any P file "image/jpeg" 0.9%float); reflexivity.
Qed.

Lemma loop_messages_not_none (files : list File) :
  occurrences NoValidFiles (flat_map (step_messages P) files) = 0%nat.
Proof.
  induction files as [|file rest IH]; [reflexivity|].
  cbn [flat_map]. now rewrite occurrences_app, step_messages_not_none, IH.
Qed.

(** A file that shows nothing in its turn passed both checks. *)
Lemma quiet_step_accepted (file : File) :
  step_messages P file = [] -> accepted file = true.
Proof.
  unfold step_messages, accepted.
  destruct (isValidImage file); cbn [negb andb]; [|discriminate].
  destruct (size file >? MAX_FILE_SIZE_BYTES); [discriminate | reflexivity].
Qed.

Lemma flat_map_nil {A B : Type} (f : A -> list B) (l : list A) :
  flat_map f l = [] <-> forall a, In a l -> f a = [].
Proof.
  induction l as [|x l IH]; cbn [flat_map].
  - split; [intros _ a [] | reflexivity].
  - split.
    + intros H a [<-|I]; apply app_eq_nil in H; destruct H as [H1 H2];
        [exact H1 | now apply IH].
    + intros H. rewrite (H x) by now left. apply IH.
      intros a I. apply H. now right.
Qed.

Lemma filter_all {A : Type} (f : A -> bool) (l : list A) :
  (forall a, In a l -> f a = true) -> filter f l = l.
Proof.
  induction l as [|x l IH]; intros H; [reflexivity|].
  cbn [filter]. rewrite (H x) by now left.
  f_equal. apply IH. intros a I. apply H. now right.
Qed.

Lemma filter_none {A : Type} (f : A -> bool) (l : list A) :
  (forall a, In a l -> f a = false) -> filter f l = [].
Proof.
  induction l as [|x l IH]; intros H; [reflexivity|].
  cbn [filter]. rewrite (H x) by now left.
  apply IH. intros a I. apply H. now right.
Qed.

Lemma slice_length (files : list File) :
  (List.length (slice_MAX_FILES files) <= 10)%nat.
Proof. unfold slice_MAX_FILES. apply firstn_le_length. Qed.

Lemma slice_full (files : list File) :
  MAX_FILES < Z.of_nat (List.length files) ->
  List.length (slice_MAX_FILES files) = 10%nat.
Proof.
  unfold slice_MAX_FILES, MAX_FILES. intros H.
  rewrite firstn_length_le; [reflexivity|].
  change (Z.to_nat 10) with 10%nat. lia.
Qed.

Lemma filter_length_le {A : Type} (f : A -> bool) (l : list A) :
  (List.length (filter f l) <= List.length l)%nat.
Proof.
  induction l as [|x l IH]; [reflexivity|].
  cbn [filter]. destruct (f x); cbn [List.length]; lia.
Qed.

Lemma last_append {A : Type} (l1 l2 : list A) (d : A) :
  l2 <> [] -> last (l1 ++ l2) d = last l2 d.
Proof.
  intros H. induction l1 as [|x l IH]; [reflexivity|].
  cbn [app]. rewrite <- IH. cbn [last].
  destruct (l ++ l2)%list eqn:E; [|reflexivity].
  apply app_eq_nil in E. tauto.
Qed.

Lemma last_in {A : Type} (l : list A) (d : A) : l <> [] -> In (last l d) l.
Proof.
  induction l as [|x l IH]; [congruence|]. intros _.
  destruct l as [|y l]; [now left|].
  right. apply IH. discriminate.
Qed.

(** The message on the page once the listener has run. *)
Lemma onChange_messageEl (files : list File) (w w' : World) :
  messages w' = (messages w ++ onChange_messages P files)%list ->
  messageEl w' = last (onChange_messages P files) ("", "").
Proof.
  intros H. unfold messageEl. rewrite H.
  apply last_append. unfold onChange_messages. discriminate.
Qed.

(** X3: with more than ten files selected, the page ends on the advisory
    about the count exactly when none of the first ten files shows a
    diagnostic of its own; any rejection or preview failure among them
    replaces the advisory on the page. *)
Theorem count_advisory_overwritten (files : list File) (w : World) :
  MAX_FILES < Z.of_nat (List.length files) ->
  exists w',
    onChange P files w = (Ok tt, w')
    /\ (messageEl w' = TooManyFiles
        <-> forall f, In f (firstn 10 files) -> step_messages P f = []).
Proof.
  intros H.
  destruct (onChange_spec P files w) as [w' [E [_ [Ms _]]]].
  exists w'. split; [exact E|].
  rewrite (onChange_messageEl files w w' Ms). unfold onChange_messages.
  pose proof (slice_full files H) as L.
  apply Z.gtb_lt in H. rewrite H.
  change (firstn 10 files) with (slice_MAX_FILES files).
  set (flat := flat_map (step_messages P) (slice_MAX_FILES files)).
  set (tail := if _ && _ then [NoValidFiles] else []).
  split.
  - intros Q. apply flat_map_nil. fold flat.
    destruct flat as [|m l] eqn:F; [reflexivity|]. exfalso.
    assert (N : ~ In TooManyFiles ((m :: l) ++ tail)).
    { apply occurrences_none. rewrite occurrences_app, <- F.
      unfold flat. rewrite loop_messages_not_max.
      unfold tail. destruct (_ && _); reflexivity. }
    apply N. rewrite <- Q.
    change ([("", "")] ++ [TooManyFiles] ++ (m :: l) ++ tail)%list
      with ([("", ""); TooManyFiles] ++ ((m :: l) ++ tail))%list.
    rewrite last_append by discriminate.
    apply last_in. discriminate.
  - intros Q.
    assert (F : flat = []) by (apply flat_map_nil; exact Q).
    assert (A : filter accepted (slice_MAX_FILES files) = slice_MAX_FILES files).
    { apply filter_all. intros f I. apply quiet_step_accepted. now apply Q. }
    unfold tail. rewrite F, A, L. reflexivity.
Qed.

End Selection.

(* ================================================================== *)
(** * The [change] listener amid other events

    The listener cut at its [await] ([onChange_start],
    [onChange_resume]) and run to its end while other events are handled
    each time it is suspended ([onChange_amid]).  Each piece is stated
    for any page it may find when it runs. *)

Section Overlap.

Variable P : Platform.

(** What the listener does when it is resumed, before it takes up the
    loop again. *)
Lemma resumed (file : File) (w : World) :
  try_catch
    (loadableFile <- ensureImageCanLoad P file ;; preview loadableFile)
    (fun err =>
       console_error "Preview error for" ;;
       setMessage (text_no_preview file) "error") w
  = if isHeicFile file then
      match heic2any P file "image/jpeg" 0.9%float with
      | inr out =>
          (Ok tt, with_previews (previews w ++ [convertedFile P out file w])
                    (with_tick w))
      | inl e =>
          (Ok tt, with_message (NoPreview file)
                    (with_console "Preview error for" w))
      end
    else (Ok tt, with_previews (previews w ++ [file]) w).
Proof.
  unfold try_catch, bind, ensureImageCanLoad.
  destruct (isHeicFile file); [|reflexivity].
  unfold convertHeicToJpeg, await_heic2any, bind.
  destruct (heic2any P file "image/jpeg" 0.9%float); reflexivity.
Qed.

(** The page once the listener has been resumed on [w]. *)
Lemma resumed_page (file : File) (w : World) :
  exists w',
    try_catch
      (loadableFile <- ensureImageCanLoad P file ;; preview loadableFile)
      (fun err =>
         console_error "Preview error for" ;;
         setMessage (text_no_preview file) "error") w
    = (Ok tt, w')
    /\ selectedFiles w' = selectedFiles w
    /\ requests w' = requests w
    /\ messages w'
       = (messages w
            ++ if isHeicFile file && negb (converts P file)
               then [NoPreview file] else [])%list
    /\ previews w' = (previews w ++ handed_over P file w)%list.
Proof.
  rewrite resumed. unfold converts, handed_over.
  destruct (isHeicFile file);
    [destruct (heic2any P file "image/jpeg" 0.9%float)|];
    eexists; (split; [reflexivity|]); cbn; rewrite ?app_nil_r; auto.
Qed.

(** What a file that passes the checks shows in its turn. *)
Lemma accepted_messages (file : File) :
  accepted file = true ->
  step_messages P file
  = if isHeicFile file && negb (converts P file) then [NoPreview file] else [].
Proof.
  unfold accepted, step_messages, converts. intros A.
  apply andb_true_iff in A. destruct A as [V S].
  rewrite V. cbn [negb]. apply negb_true_iff in S. rewrite S.
  destruct (isHeicFile file); [|reflexivity].
  destruct (heic2any P file "image/jpeg" 0.9%float); reflexivity.
Qed.

(** What is handed over for a file is what the file is previewed as. *)
Lemma handed_over_spec (file : File) (w : World) :
  accepted file = true ->
  Forall2 (previewed_as P) (if previewable P file then [file] else [])
          (handed_over P file w).
Proof.
  unfold previewable, handed_over, converts. intros ->.
  cbn [andb]. destruct (isHeicFile file) eqn:H; cbn [negb orb].
  - destruct (heic2any P file "image/jpeg" 0.9%float) as [e|out] eqn:C;
      constructor; [|constructor].
    unfold previewed_as. rewrite H. exists out, (ticks w).
    split; [exact C | reflexivity].
  - constructor; [|constructor]. unfold previewed_as. now rewrite H.
Qed.

(** A file that fails a check: the turn of the loop shows why and goes
    on. *)
Lemma change_step_rejected (file : File) (w : World) :
  accepted file = false ->
  change_step P file w = (Ok tt, snd (change_step P file w))
  /\ selectedFiles (snd (change_step P file w)) = selectedFiles w
  /\ previews (snd (change_step P file w)) = previews w
  /\ messages (snd (change_step P file w))
     = (messages w ++ step_messages P file)%list.
Proof.
  unfold accepted, change_step, step_messages.
  destruct (isValidImage file); cbn [negb andb].
  - destruct (size file >? MAX_FILE_SIZE_BYTES); [|discriminate].
    intros _. cbn. auto.
  - intros _. cbn. auto.
Qed.

(** A file that passes the checks: the turn of [change_step] is the push
    followed by what the listener does when it is resumed. *)
Lemma change_step_accepted (file : File) (w : World) :
  accepted file = true ->
  change_step P file w
  = try_catch
      (loadableFile <- ensureImageCanLoad P file ;; preview loadableFile)
      (fun err =>
         console_error "Preview error for" ;;
         setMessage (text_no_preview file) "error")
      (with_selectedFiles (selectedFiles w ++ [file]) w).
Proof.
  unfold accepted, change_step. intros A.
  apply andb_true_iff in A. destruct A as [V S].
  rewrite V. cbn [negb]. apply negb_true_iff in S. rewrite S.
  reflexivity.
Qed.

Lemma change_until_cons (files rest : list File) (file : File) (w : World) :
  change_until files (file :: rest) w
  = if accepted file
    then (Ok (Some (mkSuspended file rest files)),
          with_selectedFiles (selectedFiles w ++ [file]) w)
    else change_until files rest (snd (change_step P file w)).
Proof.
  unfold accepted, change_step. cbn [change_until].
  destruct (isValidImage file); cbn [negb andb]; [|reflexivity].
  destruct (size file >? MAX_FILE_SIZE_BYTES); reflexivity.
Qed.

Lemma onChange_resume_eq (s : Suspended) (w : World) :
  onChange_resume P s w
  = change_until (chosen s) (remaining s)
      (snd (try_catch
              (loadableFile <- ensureImageCanLoad P (pending s) ;;
               preview loadableFile)
              (fun err =>
                 console_error "Preview error for" ;;
                 setMessage (text_no_preview (pending s)) "error") w)).
Proof.
  unfold onChange_resume. unfold bind at 1.
  destruct (resumed_page (pending s) w) as [w' [E _]].
  rewrite E. reflexivity.
Qed.

Lemma bind_ok {A B : Type} (m : M A) (f : A -> M B) (w w1 : World) (a : A) :
  m w = (Ok a, w1) -> bind m f w = f a w1.
Proof. intros E. unfold bind. now rewrite E. Qed.

Lemma bind_assoc {A B C : Type} (m : M A) (f : A -> M B) (g : B -> M C)
    (w : World) :
  bind (bind m f) g w = bind m (fun a => bind (f a) g) w.
Proof. unfold bind. destruct (m w) as [[a|e] w1]; reflexivity. Qed.

Lemma change_end_page (files : list File) (w : World) :
  exists w',
    change_end files w = (Ok tt, w')
    /\ selectedFiles w' = selectedFiles w
    /\ previews w' = previews w
    /\ messages w'
       = (messages w ++ closing_notice (selectedFiles w) files)%list.
Proof.
  unfold change_end, closing_notice, bind, gets.
  destruct (_ && _); eexists; (split; [reflexivity|]); cbn;
    rewrite ?app_nil_r; auto.
Qed.

(** ** The run, from one [await] to the next *)

Lemma settle_none (rounds : nat) (others : list (World -> World)) :
  settle P rounds others None = ret true.
Proof. destruct rounds; reflexivity. Qed.

Lemma settle_nil (files : list File) (rounds : nat)
    (others : list (World -> World)) (w : World) :
  (s <- change_until files [] ;; settle P rounds others s) w
  = (Ok true, snd (change_end files w)).
Proof.
  destruct (change_end_page files w) as [w' [E _]].
  cbn [change_until]. rewrite bind_assoc, (bind_ok _ _ _ _ _ E), E.
  unfold bind, ret. rewrite settle_none. reflexivity.
Qed.

Lemma settle_skip (files rest : list File) (file : File) (rounds : nat)
    (others : list (World -> World)) (w : World) :
  accepted file = false ->
  (s <- change_until files (file :: rest) ;; settle P rounds others s) w
  = (s <- change_until files rest ;; settle P rounds others s)
      (snd (change_step P file w)).
Proof.
  intros A. unfold bind at 1. rewrite change_until_cons, A. reflexivity.
Qed.

Lemma settle_wait (files rest : list File) (file : File) (rounds : nat)
    (others : list (World -> World)) (w : World) :
  accepted file = true ->
  (s <- change_until files (file :: rest) ;; settle P (S rounds) others s) w
  = (s <- change_until files rest ;; settle P rounds (tl others) s)
      (snd (try_catch
              (loadableFile <- ensureImageCanLoad P file ;;
               preview loadableFile)
              (fun err =>
                 console_error "Preview error for" ;;
                 setMessage (text_no_preview file) "error")
              (hd (fun w => w) others
                  (with_selectedFiles (selectedFiles w ++ [file]) w)))).
Proof.
  intros A. unfold bind at 1. rewrite change_until_cons, A.
  cbn [settle]. unfold bind at 1. unfold modify at 1.
  unfold bind at 1. rewrite onChange_resume_eq. reflexivity.
Qed.

Lemma others_step (Q : (World -> World) -> Prop)
    (others : list (World -> World)) :
  Q (fun w => w) -> Forall Q others ->
  Q (hd (fun w => w) others) /\ Forall Q (tl others).
Proof.
  intros Qid F. destruct F as [|other l Ho Hl]; cbn; auto.
Qed.

(** The listener run to its end, whatever else happens while it is
    suspended: it ends; what it leaves as selection, as messages and as
    previews is known as far as the other events leave them alone. *)
Lemma settle_spec (files : list File) :
  forall (rest : list File) (rounds : nat) (others : list (World -> World))
         (w : World),
    (List.length rest <= rounds)%nat ->
    exists w',
      (s <- change_until files rest ;; settle P rounds others s) w
      = (Ok true, w')
      /\ (Forall keeps_selection others ->
          selectedFiles w' = (selectedFiles w ++ filter accepted rest)%list
          /\ (Forall keeps_messages others ->
              messages w'
              = (messages w ++ flat_map (step_messages P) rest
                   ++ closing_notice (selectedFiles w ++ filter accepted rest)
                                     files)%list))
      /\ (Forall keeps_previews others ->
          exists added,
            previews w' = (previews w ++ added)%list
            /\ Forall2 (previewed_as P) (filter (previewable P) rest) added).
Proof.
  induction rest as [|file rest IH]; intros rounds others w L.
  - destruct (change_end_page files w) as [w' [E [S [Pv Ms]]]].
    exists w'. rewrite settle_nil, E. split; [reflexivity|].
    cbn [filter flat_map app]. rewrite !app_nil_r. split.
    + intros _. split; [exact S|]. intros _. exact Ms.
    + intros _. exists []. rewrite app_nil_r. split; [exact Pv|constructor].
  - cbn [List.length] in L. destruct (accepted file) eqn:A.
    + destruct rounds as [|rounds]; [lia|].
      rewrite (settle_wait _ _ _ _ _ _ A).
      set (w1 := with_selectedFiles (selectedFiles w ++ [file]) w).
      set (w2 := hd (fun w => w) others w1).
      destruct (resumed_page file w2) as [w3 [E [S3 [_ [M3 P3]]]]].
      rewrite E. cbn [snd].
      destruct (IH rounds (tl others) w3 ltac:(lia)) as [w' [R [HS HP]]].
      exists w'. split; [exact R|].
      cbn [filter flat_map]. rewrite A. split.
      * intros F.
        destruct (others_step keeps_selection others (fun _ => eq_refl) F)
          as [K F'].
        destruct (HS F') as [S' M']. rewrite S3 in S'.
        unfold w2 in S'. rewrite K in S'.
        cbn [selectedFiles w1 with_selectedFiles] in S'.
        rewrite <- app_assoc in S'. cbn [app] in S'.
        split; [exact S'|]. intros G.
        destruct (others_step keeps_messages others (fun _ => eq_refl) G)
          as [Km G'].
        rewrite (M' G'), M3, S3. unfold w2. rewrite Km, K.
        cbn [messages selectedFiles w1 with_selectedFiles].
        rewrite (accepted_messages file A).
        rewrite <- !app_assoc. reflexivity.
      * intros F.
        destruct (others_step keeps_previews others (fun _ => eq_refl) F)
          as [K F'].
        destruct (HP F') as [added [Pv' F2]].
        rewrite P3 in Pv'. unfold w2 in Pv'. rewrite K in Pv'.
        cbn [previews w1 with_selectedFiles] in Pv'.
        exists (handed_over P file (hd (fun w => w) others w1) ++ added)%list.
        rewrite <- app_assoc in Pv'. split; [exact Pv'|].
        pose proof (handed_over_spec file (hd (fun w => w) others w1) A) as H.
        destruct (previewable P file); [|inversion H; exact F2].
        inversion H as [|? ? ? ? Hp Hn]; subst. inversion Hn; subst.
        cbn [app]. now constructor.
    + rewrite (settle_skip _ _ _ _ _ _ A).
      destruct (change_step_rejected file w A) as [E [S1 [P1 M1]]].
      destruct (IH rounds others (snd (change_step P file w)) ltac:(lia))
        as [w' [R [HS HP]]].
      exists w'. split; [exact R|].
      assert (Pb : previewable P file = false)
        by (unfold previewable; now rewrite A).
      cbn [filter flat_map]. rewrite A, Pb. split.
      * intros F. destruct (HS F) as [S' M']. rewrite S1 in S', M'.
        split; [exact S'|]. intros G.
        rewrite (M' G), M1, <- !app_assoc. reflexivity.
      * intros F. destruct (HP F) as [added [Pv' F2]]. rewrite P1 in Pv'.
        exists added. split; [exact Pv' | exact F2].
Qed.

(** The listener from the event on, whatever else happens while it is
    suspended. *)
Lemma onChange_amid_spec (others : list (World -> World)) (files : list File)
    (w : World) :
  exists w',
    onChange_amid P others files w = (Ok true, w')
    /\ (Forall keeps_selection others ->
        selectedFiles w' = filter accepted (slice_MAX_FILES files)
        /\ (Forall keeps_messages others ->
            messages w' = (messages w ++ onChange_messages P files)%list))
    /\ (Forall keeps_previews others ->
        Forall2 (previewed_as P)
                (filter (previewable P) (slice_MAX_FILES files))
                (previews w')).
Proof.
  unfold onChange_amid, onChange_start, onChange_messages.
  rewrite bind_assoc. unfold bind at 1. unfold modify at 1.
  rewrite bind_assoc. unfold bind at 1. unfold resetPreview at 1.
  unfold modify at 1.
  rewrite bind_assoc. unfold bind at 1. unfold setMessage at 1.
  unfold modify at 1.
  set (w0 := with_message ("", "")
               (with_previews [] (with_selectedFiles [] w))).
  destruct (Z.of_nat (List.length files) =? 0) eqn:Hz.
  - assert (files = [])
      by (destruct files; [reflexivity | apply Z.eqb_eq in Hz; cbn in Hz; lia]).
    subst files. exists w0. split; [reflexivity|]. cbn. split.
    + intros _. split; [reflexivity|]. intros _. reflexivity.
    + intros _. constructor.
  - assert (Hp : (Z.of_nat (List.length files) >? 0) = true)
      by (apply Z.gtb_gt; apply Z.eqb_neq in Hz; lia).
    rewrite bind_assoc. unfold bind at 1.
    set (w1 := if Z.of_nat (List.length files) >? MAX_FILES
               then with_message TooManyFiles w0 else w0).
    assert (E1 : (if Z.of_nat (List.length files) >? MAX_FILES
                  then setMessage text_max_files "error" else ret tt) w0
                 = (Ok tt, w1))
      by (unfold w1; destruct (_ >? MAX_FILES); reflexivity).
    rewrite E1.
    destruct (settle_spec files (slice_MAX_FILES files) (Z.to_nat MAX_FILES)
                others w1 (slice_length files)) as [w' [R [HS HP]]].
    exists w'. split; [exact R|].
    assert (S1 : selectedFiles w1 = [])
      by (unfold w1; destruct (_ >? MAX_FILES); reflexivity).
    assert (P1 : previews w1 = [])
      by (unfold w1; destruct (_ >? MAX_FILES); reflexivity).
    assert (M1 : messages w1
                 = (messages w ++ [("", "")]
                      ++ if Z.of_nat (List.length files) >? MAX_FILES
                         then [TooManyFiles] else [])%list).
    { unfold w1. destruct (_ >? MAX_FILES); cbn;
        rewrite <- ?app_assoc, ?app_nil_r; reflexivity. }
    split.
    + intros F. destruct (HS F) as [S' M']. rewrite S1 in S', M'.
      cbn [app] in S', M'. split; [exact S'|]. intros G.
      rewrite (M' G), M1. unfold closing_notice.
      rewrite <- !app_assoc. reflexivity.
    + intros F. destruct (HP F) as [added [Pv F2]].
      rewrite P1 in Pv. cbn [app] in Pv. now rewrite Pv.
Qed.

(** When nothing else happens while it is suspended, the pieces of the
    listener make up [onChange]. *)
Lemma settle_alone (files : list File) :
  forall (rest : list File) (rounds : nat) (w : World),
    (List.length rest <= rounds)%nat ->
    exists w',
      (s <- change_until files rest ;; settle P rounds [] s) w = (Ok true, w')
      /\ (change_loop P rest ;; change_end files) w = (Ok tt, w').
Proof.
  induction rest as [|file rest IH]; intros rounds w L.
  - destruct (change_end_page files w) as [w' [E _]].
    exists w'. rewrite settle_nil, E. split; [reflexivity|]. exact E.
  - cbn [List.length] in L. cbn [change_loop]. rewrite bind_assoc.
    destruct (accepted file) eqn:A.
    + destruct rounds as [|rounds]; [lia|].
      rewrite (settle_wait _ _ _ _ _ _ A). cbn [hd tl].
      destruct (resumed_page file
                  (with_selectedFiles (selectedFiles w ++ [file]) w))
        as [w3 [E _]].
      rewrite (bind_ok (change_step P file) _ w w3 tt)
        by (rewrite (change_step_accepted _ _ A); exact E).
      rewrite E. cbn [snd]. apply IH. lia.
    + rewrite (settle_skip _ _ _ _ _ _ A).
      destruct (change_step_rejected file w A) as [E _].
      rewrite (bind_ok (change_step P file) _ w _ tt) by exact E.
      apply IH. lia.
Qed.

(** A stretch of the loop in which no file passes the checks runs to the
    end of the listener at once. *)
Lemma change_until_quiet (files : list File) :
  forall (rest : list File) (w : World),
    (forall f, In f rest -> accepted f = false) ->
    exists w',
      change_until files rest w = (Ok None, w')
      /\ (change_loop P rest ;; change_end files) w = (Ok tt, w').
Proof.
  induction rest as [|file rest IH]; intros w Q.
  - destruct (change_end_page files w) as [w' [E _]]. exists w'.
    cbn [change_until change_loop].
    rewrite (bind_ok (change_end files) _ w w' tt) by exact E.
    split; [reflexivity | exact E].
  - assert (A : accepted file = false) by (apply Q; now left).
    destruct (change_step_rejected file w A) as [E _].
    rewrite change_until_cons, A. cbn [change_loop].
    rewrite bind_assoc, (bind_ok (change_step P file) _ w _ tt) by exact E.
    apply IH. intros f I. apply Q. now right.
Qed.

(** The listener is [change_loop] and [change_end] after the resets. *)
Lemma onChange_eq (files : list File) (w : World) :
  onChange P files w
  = let w0 := with_message ("", "")
                (with_previews [] (with_selectedFiles [] w)) in
    if Z.of_nat (List.length files) =? 0 then (Ok tt, w0)
    else (change_loop P (slice_MAX_FILES files) ;; change_end files)
           (if Z.of_nat (List.length files) >? MAX_FILES
            then with_message TooManyFiles w0 else w0).
Proof.
  unfold onChange. unfold bind at 1. unfold modify at 1.
  unfold bind at 1. unfold resetPreview at 1. unfold modify at 1.
  unfold bind at 1. unfold setMessage at 1. unfold modify at 1.
  cbv zeta. destruct (Z.of_nat (List.length files) =? 0); [reflexivity|].
  unfold bind at 1. destruct (_ >? MAX_FILES); reflexivity.
Qed.

Lemma onChange_start_eq (files : list File) (w : World) :
  onChange_start files w
  = let w0 := with_message ("", "")
                (with_previews [] (with_selectedFiles [] w)) in
    if Z.of_nat (List.length files) =? 0 then (Ok None, w0)
    else change_until files (slice_MAX_FILES files)
           (if Z.of_nat (List.length files) >? MAX_FILES
            then with_message TooManyFiles w0 else w0).
Proof.
  unfold onChange_start. unfold bind at 1. unfold modify at 1.
  unfold bind at 1. unfold resetPreview at 1. unfold modify at 1.
  unfold bind at 1. unfold setMessage at 1. unfold modify at 1.
  cbv zeta. destruct (Z.of_nat (List.length files) =? 0); [reflexivity|].
  unfold bind at 1. destruct (_ >? MAX_FILES); reflexivity.
Qed.

(** X20: when nothing else happens on the page while the listener is
    suspended, its pieces run one after the other make up [onChange]:
    the listener ends, and on the same page. *)
Theorem undisturbed_listener (files : list File) (w : World) :
  exists w',
    onChange_amid P [] files w = (Ok true, w')
    /\ onChange P files w = (Ok tt, w').
Proof.
  unfold onChange_amid. rewrite onChange_eq. cbv zeta.
  unfold bind at 1. rewrite onChange_start_eq. cbv zeta.
  destruct (Z.of_nat (List.length files) =? 0).
  - eexists. split; reflexivity.
  - exact (settle_alone files (slice_MAX_FILES files) (Z.to_nat MAX_FILES) _
             (slice_length files)).
Qed.

Lemma accepted_spec (f : File) :
  accepted f = true
  <-> (startsWith (type f) "image/" = true \/ isHeicFile f = true)
      /\ size f <= 20971520.
Proof.
  unfold accepted, isValidImage.
  rewrite andb_true_iff, orb_true_iff, negb_true_iff.
  change MAX_FILE_SIZE_BYTES with 20971520.
  split; intros [V Hs]; (split; [exact V|]).
  - destruct (Z.gtb_spec (size f) 20971520); [discriminate | lia].
  - destruct (Z.gtb_spec (size f) 20971520); [lia | reflexivity].
Qed.

(** X1: whatever was selected before, and whatever else happens on the
    page while the listener is suspended as long as it leaves the
    selection alone, the listener ends and leaves as selection the files
    among the first ten that have an image type or a HEIC name or type
    and a size of at most 20 * 1024 * 1024 bytes, in the order they were
    picked: never more than ten, and a file of exactly 20 MiB is kept. *)
Theorem selection_after_change (others : list (World -> World))
    (files : list File) (w : World) :
  Forall keeps_selection others ->
  exists w',
    onChange_amid P others files w = (Ok true, w')
    /\ selectedFiles w' = filter accepted (firstn 10 files)
    /\ (List.length (selectedFiles w') <= 10)%nat
    /\ (forall f,
          In f (selectedFiles w')
          <-> In f (firstn 10 files)
              /\ (startsWith (type f) "image/" = true \/ isHeicFile f = true)
              /\ size f <= 20971520).
Proof.
  intros F.
  destruct (onChange_amid_spec others files w) as [w' [E [HS _]]].
  destruct (HS F) as [S _].
  exists w'. split; [exact E|]. split; [exact S|]. split.
  - rewrite S.
    eapply Nat.le_trans; [apply filter_length_le | apply slice_length].
  - intros f. rewrite S, filter_In, accepted_spec. reflexivity.
Qed.

(** X2: for a selection that is not empty.  When none of the first ten
    files passes the checks, the listener ends without being suspended,
    the selection is empty and the page is on the notice that no valid
    image was selected, even if a later file would have passed.  When
    one of them passes and what else happens while the listener is
    suspended leaves the selection and the messages alone, the selection
    ends non-empty and the notice is not among the messages the run has
    added to the page. *)
Theorem no_valid_files_notice (others : list (World -> World))
    (files : list File) (w : World) :
  files <> [] ->
  Forall keeps_selection others ->
  Forall keeps_messages others ->
  ((forall f, In f (firstn 10 files) -> accepted f = false) ->
   exists w',
     onChange_start files w = (Ok None, w')
     /\ selectedFiles w' = []
     /\ messageEl w' = NoValidFiles)
  /\ ((exists f, In f (firstn 10 files) /\ accepted f = true) ->
      exists w' shown,
        onChange_amid P others files w = (Ok true, w')
        /\ selectedFiles w' <> []
        /\ messages w' = (messages w ++ shown)%list
        /\ ~ In NoValidFiles shown).
Proof.
  intros Hne F G.
  assert (Hz : (Z.of_nat (List.length files) =? 0) = false).
  { apply Z.eqb_neq. destruct files; [congruence | cbn [List.length]; lia]. }
  assert (Hp : (Z.of_nat (List.length files) >? 0) = true).
  { apply Z.gtb_lt. apply Z.eqb_neq in Hz. lia. }
  split.
  - intros H.
    destruct (onChange_spec P files w) as [w' [E [S [Ms _]]]].
    exists w'. rewrite onChange_eq in E. rewrite onChange_start_eq.
    cbv zeta in E |- *. rewrite Hz in E |- *.
    destruct (change_until_quiet files (slice_MAX_FILES files)
                (if Z.of_nat (List.length files) >? MAX_FILES
                 then with_message TooManyFiles
                        (with_message ("", "")
                           (with_previews [] (with_selectedFiles [] w)))
                 else with_message ("", "")
                        (with_previews [] (with_selectedFiles [] w))))
      as [w'' [U L]]; [exact H|].
    rewrite L in E. injection E as <-.
    split; [exact U|].
    assert (N : filter accepted (slice_MAX_FILES files) = [])
      by (apply filter_none; exact H).
    split; [now rewrite S|].
    rewrite (onChange_messageEl P files w w'' Ms). unfold onChange_messages.
    rewrite N, Hp. cbn [List.length Z.of_nat Z.eqb andb].
    rewrite !app_assoc. apply last_last.
  - intros [f [I A]].
    destruct (onChange_amid_spec others files w) as [w' [E [HS _]]].
    destruct (HS F) as [S Ms]. specialize (Ms G).
    exists w', (onChange_messages P files).
    split; [exact E|].
    assert (In f (filter accepted (slice_MAX_FILES files)))
      by (apply filter_In; now split).
    split; [rewrite S; intros Q; now rewrite Q in *|].
    split; [exact Ms|].
    apply occurrences_none. unfold onChange_messages.
    rewrite !occurrences_app, loop_messages_not_none.
    destruct (filter accepted (slice_MAX_FILES files)) as [|x l];
      [contradiction|].
    cbn [List.length]. rewrite Hp.
    destruct (Z.of_nat (List.length files) >? MAX_FILES); reflexivity.
Qed.

(** X4: as long as what else happens while the listener is suspended
    leaves the previews alone, the files handed to the preview reader by
    the end of the listener are, in order, one for each of the first ten
    files that passes the checks and is not HEIC, the file itself, and
    one for each that passes the checks and is HEIC and converts, its
    JPEG conversion under the [.jpg] name, stamped with a reading of the
    clock; a HEIC file whose conversion fails gets none.  None of the
    files handed over is taken for HEIC. *)
Theorem previews_after_change (others : list (World -> World))
    (files : list File) (w : World) :
  Forall keeps_previews others ->
  exists w',
    onChange_amid P others files w = (Ok true, w')
    /\ Forall2 (previewed_as P)
               (filter (previewable P) (firstn 10 files)) (previews w')
    /\ Forall (fun shown => isHeicFile shown = false) (previews w').
Proof.
  intros F.
  destruct (onChange_amid_spec others files w) as [w' [E [_ HP]]].
  specialize (HP F). exists w'. split; [exact E|]. split; [exact HP|].
  change (firstn 10 files) with (slice_MAX_FILES files) in *.
  induction HP as [|f shown l l' H HP IH]; constructor; [|exact IH].
  unfold previewed_as in H. destruct (isHeicFile f) eqn:Hf.
  - destruct H as [out [n [_ ->]]].
    apply jpeg_not_heic; [reflexivity | |];
      apply (replaced_name_not_heic (name f)).
  - now subst shown.
Qed.

(** X5: a HEIC file among the first ten that is within the size limit
    and whose conversion fails.  The listener pushes it on the selection
    and is suspended; when it is resumed, the conversion having failed,
    whatever the page is by then, it puts the notice that the file could
    not be previewed on the page, touches neither the selection nor the
    previews, and goes on with the remaining files.  As long as what
    else happens while the listener is suspended leaves the selection
    and the messages alone, the file is in the selection at the end and
    the notice is among the messages of the page. *)
Theorem unpreviewable_file_stays_selected (others : list (World -> World))
    (files : list File) (w : World) (file : File) (e : Error) :
  Forall keeps_selection others ->
  Forall keeps_messages others ->
  In file (firstn 10 files) ->
  isHeicFile file = true ->
  size file <= MAX_FILE_SIZE_BYTES ->
  heic2any P file "image/jpeg" 0.9%float = inl e ->
  (forall rest w0,
     change_until files (file :: rest) w0
     = (Ok (Some (mkSuspended file rest files)),
        with_selectedFiles (selectedFiles w0 ++ [file]) w0))
  /\ (forall rest w1,
        exists w2,
          onChange_resume P (mkSuspended file rest files) w1
          = change_until files rest w2
          /\ messageEl w2 = NoPreview file
          /\ selectedFiles w2 = selectedFiles w1
          /\ previews w2 = previews w1)
  /\ exists w',
       onChange_amid P others files w = (Ok true, w')
       /\ In file (selectedFiles w')
       /\ In (NoPreview file) (messages w').
Proof.
  intros F G I H Hs C.
  assert (A : accepted file = true).
  { unfold accepted, isValidImage. rewrite H, orb_true_r. cbn [andb].
    apply negb_true_iff. destruct (Z.gtb_spec (size file) MAX_FILE_SIZE_BYTES);
      [lia | reflexivity]. }
  split; [|split].
  - intros rest w0. now rewrite change_until_cons, A.
  - intros rest w1.
    exists (with_message (NoPreview file)
              (with_console "Preview error for" w1)).
    rewrite onChange_resume_eq. cbn [pending chosen remaining].
    rewrite resumed, H, C. cbn [snd].
    split; [reflexivity|]. split; [|split; reflexivity].
    unfold messageEl. cbn [messages with_message with_console].
    apply last_last.
  - destruct (onChange_amid_spec others files w) as [w' [E [HS _]]].
    destruct (HS F) as [S Ms]. specialize (Ms G).
    exists w'. split; [exact E|]. split.
    + rewrite S. apply filter_In. now split.
    + rewrite Ms. apply in_or_app. right.
      apply loop_messages_shown. apply step_messages_in with file; [exact I|].
      rewrite (accepted_messages file A). unfold converts.
      rewrite H, C. now left.
Qed.

(** X21: a second change event handled while the listener of a first
    one waits for the conversion of its first file.  The second
    listener, which has no conversion to wait for, replaces the
    selection; the first one is then resumed and pushes its own
    remaining files that pass the checks onto that selection.  The
    selection ends as the files of the second event followed by files of
    the first, and can hold up to nineteen files. *)
Theorem overlapping_changes_mix (first second rest : list File)
    (file : File) (w : World) :
  slice_MAX_FILES first = file :: rest ->
  awaited file = true ->
  (forall f, In f (slice_MAX_FILES second) -> awaited f = false) ->
  exists w',
    onChange_amid P [fun w0 => snd (onChange P second w0)] first w
    = (Ok true, w')
    /\ selectedFiles w'
       = (filter accepted (slice_MAX_FILES second) ++ filter accepted rest)%list.
Proof.
  intros Sl A _.
  assert (Acc : accepted file = true)
    by (unfold awaited in A; apply andb_true_iff in A; tauto).
  assert (L : (List.length rest <= 9)%nat).
  { pose proof (slice_length first) as L. rewrite Sl in L.
    cbn [List.length] in L. lia. }
  unfold onChange_amid. unfold bind at 1. rewrite onChange_start_eq.
  cbv zeta.
  destruct (Z.of_nat (List.length first) =? 0) eqn:Hz.
  - apply Z.eqb_eq in Hz. destruct first; [discriminate Sl | cbn in Hz; lia].
  - rewrite Sl, change_until_cons, Acc.
    change (Z.to_nat MAX_FILES) with 10%nat. cbn [settle hd tl].
    unfold bind at 1. unfold modify at 1.
    set (w1 := with_selectedFiles _ _).
    destruct (onChange_spec P second w1) as [w2 [E2 [S2 _]]].
    rewrite E2. cbn [snd]. unfold bind at 1. rewrite onChange_resume_eq.
    cbn [pending chosen remaining].
    destruct (resumed_page file w2) as [w3 [E3 [S3 _]]].
    rewrite E3. cbn [snd].
    destruct (settle_spec first rest 9 [] w3 L) as [w' [R [HS _]]].
    destruct (HS (Forall_nil _)) as [S' _].
    exists w'. split.
    + unfold bind in R |- *.
      destruct (change_until first rest w3) as [[s|e] w4]; exact R.
    + now rewrite S', S3, S2.
Qed.

End Overlap.


(* ================================================================== *)
(** * The script before HEIC support, compared *)

Section Earlier.

Variable P : Platform.

Lemma bind_ext {A B : Type} (m : M A) (k1 k2 : A -> M B) (w : World) :
  (forall a w', k1 a w' = k2 a w') -> bind m k1 w = bind m k2 w.
Proof.
  intros H. unfold bind. destruct (m w) as [[a|e] w']; [apply H | reflexivity].
Qed.

Lemma bind_cong {A B : Type} (m1 m2 : M A) (k : A -> M B) (w : World) :
  m1 w = m2 w -> bind m1 k w = bind m2 k w.
Proof. intros H. unfold bind. now rewrite H. Qed.

Lemma plain_compress (file : File) (w : World) :
  isHeicFile file = false ->
  Plain.compressImage P file w = compressImage P file w.
Proof.
  intros H. rewrite compressImage_stages, (ensure_plain P file w H).
  unfold Plain.compressImage, bind.
  destruct (readFileAsImage P file w) as [[image|e] w1]; [|reflexivity].
  destruct (width image <=? MAX_WIDTH); reflexivity.
Qed.

Lemma plain_prepare_loop_cons (file : File) (rest acc : list File)
    (w : World) :
  Plain.prepare_loop P (file :: rest) acc w =
  match Plain.compressImage P file w with
  | (Ok out, w1) => Plain.prepare_loop P rest (acc ++ [out]) w1
  | (Throw e, w1) =>
      (Throw e, with_message NotProcessed (with_console "Compression error:" w1))
  end.
Proof.
  cbn [Plain.prepare_loop]. unfold bind at 1. unfold try_catch.
  destruct (Plain.compressImage P file w) as [[out|e] w1]; reflexivity.
Qed.

Lemma plain_prepare_loop (files acc : list File) (w : World) :
  Forall (fun f => isHeicFile f = false) files ->
  Plain.prepare_loop P files acc w = prepare_loop P files acc w.
Proof.
  intros F. revert acc w.
  induction F as [|file rest H F IH]; intros acc w; [reflexivity|].
  rewrite plain_prepare_loop_cons, prepare_loop_cons, (plain_compress file w H).
  destruct (compressImage P file w) as [[out|e] w1]; [apply IH | reflexivity].
Qed.

Lemma plain_change_step (file : File) (w : World) :
  isHeicFile file = false ->
  Plain.change_step file w = change_step P file w.
Proof.
  intros H. unfold Plain.change_step, change_step, isValidImage.
  rewrite H, orb_false_r.
  destruct (negb (startsWith (type file) "image/")); [reflexivity|].
  destruct (size file >? MAX_FILE_SIZE_BYTES); [reflexivity|].
  apply bind_ext. intros _ w'. unfold try_catch, bind.
  now rewrite (ensure_plain P file w' H).
Qed.

Lemma plain_change_loop (files : list File) (w : World) :
  (forall f, In f files -> isHeicFile f = false) ->
  Plain.change_loop files w = change_loop P files w.
Proof.
  revert w. induction files as [|file rest IH]; intros w H; [reflexivity|].
  cbn [Plain.change_loop change_loop]. unfold bind.
  rewrite (plain_change_step file w) by (apply H; now left).
  destruct (change_step P file w) as [[[]|e] w1]; [|reflexivity].
  apply IH. intros f I. apply H. now right.
Qed.

(** X6: on a selection whose first ten files are not HEIC (neither by
    type nor by name) the earlier [change] listener and the present one
    run alike: same result, same page. *)
Theorem earlier_listener_agrees (files : list File) (w : World) :
  (forall f, In f (firstn 10 files) -> isHeicFile f = false) ->
  Plain.onChange files w = onChange P files w.
Proof.
  intros H. unfold Plain.onChange, onChange.
  apply bind_ext; intros _ w1.
  apply bind_ext; intros _ w2.
  apply bind_ext; intros _ w3.
  destruct (Z.of_nat (List.length files) =? 0); [reflexivity|].
  apply bind_ext; intros _ w4. cbv zeta.
  apply bind_cong. exact (plain_change_loop (slice_MAX_FILES files) w4 H).
Qed.

(** X7: on files that are not HEIC the earlier [prepareCompressedFiles]
    and the present one return the same files, or throw the same error,
    and leave the same page. *)
Theorem earlier_preparation_agrees (files : list File) (w : World) :
  Forall (fun f => isHeicFile f = false) files ->
  Plain.prepareCompressedFiles P files w = prepareCompressedFiles P files w.
Proof. intros F. now apply plain_prepare_loop. Qed.

(** X8: the two listeners part on a file whose name or type says HEIC
    while its type does not start with [image/] (a browser that leaves
    the type of a [.heic] file empty): with a size within the limit the
    present listener selects it, the earlier one turns it away as not an
    image and ends on the notice that nothing valid was selected. *)
Theorem earlier_listener_rejects_heic (file : File) (w : World) :
  isHeicFile file = true ->
  startsWith (type file) "image/" = false ->
  size file <= MAX_FILE_SIZE_BYTES ->
  (exists w', onChange P [file] w = (Ok tt, w')
              /\ selectedFiles w' = [file])
  /\ (exists w', Plain.onChange [file] w = (Ok tt, w')
                 /\ selectedFiles w' = []
                 /\ messages w'
                    = (messages w ++ [("", ""); NotAnImage; NoValidFiles])%list).
Proof.
  intros H T Hs. split.
  - destruct (onChange_spec P [file] w) as [w' [E [S _]]].
    exists w'. split; [exact E|]. rewrite S.
    cbn [slice_MAX_FILES firstn filter]. unfold slice_MAX_FILES.
    change (Z.to_nat MAX_FILES) with 10%nat. cbn [firstn filter].
    unfold accepted, isValidImage. rewrite H, orb_true_r. cbn [andb].
    destruct (Z.gtb_spec (size file) MAX_FILE_SIZE_BYTES); [lia|reflexivity].
  - unfold Plain.onChange, slice_MAX_FILES.
    change (Z.to_nat MAX_FILES) with 10%nat.
    cbn [List.length firstn Plain.change_loop].
    unfold Plain.change_step. rewrite T. cbn [negb].
    eexists. split; [reflexivity|].
    cbn [selectedFiles messages with_message with_previews
         with_selectedFiles setMessage modify bind gets snd fst].
    split; [reflexivity|]. now rewrite <- !app_assoc.
Qed.

End Earlier.

(* ================================================================== *)
(** * More on normalisation and resizing *)

Section Stages.

Variable P : Platform.

(** X9: normalising twice is normalising once: the file
    [ensureImageCanLoad] returns goes through it again unchanged, with
    no conversion and no clock reading. *)
Theorem normalisation_idempotent (file loadable : File) (w w1 : World) :
  ensureImageCanLoad P file w = (Ok loadable, w1) ->
  forall w2, ensureImageCanLoad P loadable w2 = (Ok loadable, w2).
Proof.
  intros E w2. apply ensure_plain. exact (ensure_not_heic P _ _ _ _ E).
Qed.

(** X10: the name of a converted file.  When the name ends in [.heic] or
    [.heif], in any letter case, that ending alone is replaced by [.jpg]
    and what comes before is kept; when the file was detected by its type
    and its name has no such ending, the name is kept as it is.  Either
    way the file is typed [image/jpeg]. *)
Theorem converted_file_name (file : File) (w : World) (out : HeicOutput) :
  isHeicFile file = true ->
  heic2any P file "image/jpeg" 0.9%float = inr out ->
  exists converted,
    ensureImageCanLoad P file w = (Ok converted, with_tick w)
    /\ type converted = "image/jpeg"
    /\ (forall stem tail,
          name file = stem ++ tail ->
          lowercase tail = ".heic" \/ lowercase tail = ".heif" ->
          name converted = stem ++ ".jpg")
    /\ (~ ends_with_ignoring_case (name file) ".heic" ->
        ~ ends_with_ignoring_case (name file) ".heif" ->
        name converted = name file).
Proof.
  intros H C. exists (convertedFile P out file w).
  split; [now apply ensure_converted|]. split; [reflexivity|].
  unfold convertedFile, new_File. cbn [name]. split.
  - intros stem tail E T.
    assert (Ht : heic_or_heif tail = true).
    { unfold heic_or_heif. apply orb_true_iff.
      destruct T as [T|T]; [left | right]; now apply same_text_lowercase. }
    unfold replace. rewrite E.
    rewrite (exec_complete true _ _ 5%nat whole_heic_or_heif
               heic_or_heif_length stem tail Ht).
    reflexivity.
  - intros N1 N2.
    destruct (replace_extension (name file))
      as [[stem [tail [E [Ht _]]]]|[_ R]]; [|exact R].
    exfalso. unfold heic_or_heif in Ht. apply orb_true_iff in Ht.
    destruct Ht as [Ht|Ht]; apply same_text_lowercase in Ht;
      [apply N1 | apply N2]; now exists stem, tail.
Qed.

(** X11: the content of a converted file.  A single blob, or the first
    blob of an array, becomes the content and gives the size, the other
    blobs being dropped; an empty array is not an error: the file then
    holds the nine bytes of the word [undefined]. *)
Theorem converted_file_content (file : File) (w : World) (out : HeicOutput) :
  isHeicFile file = true ->
  heic2any P file "image/jpeg" 0.9%float = inr out ->
  exists converted,
    ensureImageCanLoad P file w = (Ok converted, with_tick w)
    /\ lastModified converted = now P (ticks w)
    /\ (forall b, out = OneBlob b ->
        data converted = blob_data b /\ size converted = blob_size b)
    /\ (forall b rest, out = BlobArray (b :: rest) ->
        data converted = blob_data b /\ size converted = blob_size b)
    /\ (out = BlobArray [] ->
        size converted = 9
        /\ string_of_list_byte (data converted) = "undefined").
Proof.
  intros H C. exists (convertedFile P out file w).
  split; [now apply ensure_converted|]. split; [reflexivity|].
  split; [|split].
  - intros b ->. split; reflexivity.
  - intros b rest ->. split; reflexivity.
  - intros ->. split; reflexivity.
Qed.

Lemma read_errors (file : File) (w w' : World) (e : Error) :
  readFileAsImage P file w = (Throw e, w') ->
  e = "Failed to read file." \/ e = "Failed to load image.".
Proof.
  unfold readFileAsImage.
  destruct (readAsDataURL P file) as [url|].
  - destruct (decode P url) as [[x y]|]; intros Q; [discriminate|].
    injection Q as <- _. now right.
  - intros Q. injection Q as <- _. now left.
Qed.

(** X12: the errors of [compressImage].  When it throws, the error is
    what [heic2any] rejected with on a HEIC file, or one of the three
    messages of the script (the read failed, the image did not load, the
    canvas gave no blob); and it has shown no message, touched neither
    the selection nor the previews, and sent nothing. *)
Theorem compress_errors (file : File) (w w' : World) (e : Error) :
  compressImage P file w = (Throw e, w') ->
  untouched w w'
  /\ ((isHeicFile file = true
       /\ heic2any P file "image/jpeg" 0.9%float = inl e)
      \/ e = "Failed to read file."
      \/ e = "Failed to load image."
      \/ e = "Image compression failed.").
Proof.
  intros C. split; [exact (compress_untouched P _ _ _ _ C)|].
  apply stage_failure_throws in C.
  destruct C as [e w1 E | loadable w1 e E R | loadable w1 image E R Hw B].
  - left. destruct (ensure_cases P file w)
      as [[_ E']|[[out [_ [_ E']]]|[e' [H [C E']]]]]; rewrite E' in E;
      try discriminate.
    injection E as <- _. now split.
  - apply read_errors in R. tauto.
  - tauto.
Qed.

(** X13: a file that is not HEIC comes out of [compressImage] under its
    own name: either it is the very file, nothing having been read from
    the clock, or it decoded wider than [MAX_WIDTH] and is a new file
    typed [image/jpeg], whatever the extension of the name it keeps,
    stamped with the current time. *)
Theorem resized_file_keeps_name (file out : File) (w w' : World) :
  isHeicFile file = false ->
  compressImage P file w = (Ok out, w') ->
  name out = name file
  /\ ((out = file /\ w' = w)
      \/ (type out = "image/jpeg"
          /\ lastModified out = now P (ticks w)
          /\ ticks w' = S (ticks w)
          /\ exists image,
               readFileAsImage P file w = (Ok image, w)
               /\ MAX_WIDTH < width image)).
Proof.
  intros H C. apply compress_ok_inv in C.
  destruct C as [loadable [w1 [image [E [R C]]]]].
  rewrite (ensure_plain P file w H) in E. injection E as <- <-.
  destruct C as [[_ [-> ->]]|[Hw [blob [_ [-> ->]]]]].
  - split; [reflexivity|]. now left.
  - split; [reflexivity|]. right.
    split; [reflexivity|]. split; [reflexivity|]. split; [reflexivity|].
    now exists image.
Qed.

End Stages.

(* ================================================================== *)
(** * More on the preparation of a batch *)

Section Preparation.

Variable P : Platform.

Lemma prepare_loop_untouched (files acc outs : list File) (w w' : World) :
  prepare_loop P files acc w = (Ok outs, w') -> untouched w w'.
Proof.
  revert acc w. induction files as [|file rest IH]; intros acc w.
  - intros Q. injection Q as _ <-. apply untouched_refl.
  - rewrite prepare_loop_cons.
    destruct (compressImage P file w) as [[out|e] w1] eqn:C; [|discriminate].
    intros Q. apply untouched_trans with w1.
    + exact (compress_untouched P _ _ _ _ C).
    + now apply IH with (acc ++ [out])%list.
Qed.

(** What a successful preparation leaves alone, and how many files it
    returns. *)
Lemma prepared_silently (files outs : list File)
    (w w' : World) :
  prepareCompressedFiles P files w = (Ok outs, w') ->
  untouched w w' /\ List.length outs = List.length files.
Proof.
  intros Q. unfold prepareCompressedFiles in Q.
  split; [exact (prepare_loop_untouched _ _ _ _ _ Q)|].
  apply prepare_loop_ok in Q. destruct Q as [news [-> F]]. cbn [app].
  symmetry. now apply Forall2_length with (1 := F).
Qed.

(** X14: a preparation that succeeds is silent: it shows no message,
    leaves the selection and the previews alone and sends nothing; it
    returns one file per file given, none of which is taken for HEIC. *)
Theorem successful_preparation_is_silent (files outs : list File)
    (w w' : World) :
  prepareCompressedFiles P files w = (Ok outs, w') ->
  untouched w w'
  /\ messageEl w' = messageEl w
  /\ List.length outs = List.length files
  /\ Forall (fun out => isHeicFile out = false) outs.
Proof.
  intros Q. unfold prepareCompressedFiles in Q.
  pose proof (prepare_loop_untouched _ _ _ _ _ Q) as U.
  split; [exact U|]. split.
  - unfold messageEl. destruct U as [_ [M _]]. now rewrite M.
  - apply prepare_loop_ok in Q. destruct Q as [news [-> F]]. cbn [app].
    split; [symmetry; now apply Forall2_length with (1 := F)|].
    induction F as [|f out l l' [wa [wb C]] F IH]; constructor.
    + exact (compress_not_heic P _ _ _ _ C).
    + exact IH.
Qed.

(** X15: the preparation stops at the first file on which a stage
    fails: the files after it are never looked at, so the error thrown
    and the page left are the same whatever follows that file. *)
Theorem later_files_not_processed (before outs : list File) (file : File)
    (w w1 w2 : World) (e : Error) :
  prepareCompressedFiles P before w = (Ok outs, w1) ->
  StageFailure P file w1 e w2 ->
  forall after,
    prepareCompressedFiles P (before ++ file :: after) w
    = (Throw e, with_message NotProcessed
                  (with_console "Compression error:" w2)).
Proof.
  intros B F after. unfold prepareCompressedFiles in *.
  rewrite prepare_loop_app, B, prepare_loop_cons.
  apply stage_failure_throws in F. now rewrite F.
Qed.

End Preparation.

(* ================================================================== *)
(** * More on the [submit] listener *)

Section Upload.

Variable P : Platform.

Lemma upload_success (form : list FormEntry) (w : World) :
  upload_succeeds (send P upload_url form) = true ->
  upload P form w = (Ok tt, with_message Uploaded (with_request form w)).
Proof.
  unfold upload, upload_url, upload_succeeds, bind, modify, setMessage, modify.
  destruct (send P (API_BASE_URL ++ "/upload") form)
    as [status [|e|[|] err]|]; try discriminate.
  now intros ->.
Qed.

Lemma upload_failure (form : list FormEntry) (w : World) :
  upload_succeeds (send P upload_url form) = false ->
  exists e w',
    upload P form w = (Throw e, w')
    /\ messageEl w' = (failure_text (send P upload_url form), "error")
    /\ selectedFiles w' = selectedFiles w
    /\ previews w' = previews w
    /\ console w' = console w
    /\ requests w' = (requests w ++ [form])%list.
Proof.
  unfold upload, upload_url, upload_succeeds, failure_text, bind, modify,
    setMessage, modify, throw, messageEl.
  destruct (send P (API_BASE_URL ++ "/upload") form)
    as [status [|e|[|] [err|]]|]; intros H; try rewrite H;
    try discriminate;
    eexists; eexists; (split; [reflexivity|]);
    cbn [messages selectedFiles previews console requests with_message
         with_request];
    (split; [|repeat split]);
    rewrite ?app_assoc; apply last_last.
Qed.



(** X17: when the files are prepared and the server answers with a
    status in the 200s and a truthy [success], the page ends on the thanks
    and the selection and the previews are emptied; submitting again then
    sends nothing and asks for a selection. *)
Theorem successful_upload_clears_selection (w w1 : World) (outs : list File) :
  selectedFiles w <> [] ->
  prepareCompressedFiles P (selectedFiles w) (with_message ("", "") w)
  = (Ok outs, w1) ->
  upload_succeeds (send P upload_url (formOf outs)) = true ->
  exists w',
    onSubmit P w = (Ok tt, w')
    /\ selectedFiles w' = []
    /\ previews w' = []
    /\ messageEl w' = Uploaded
    /\ requests w' = (requests w ++ [formOf outs])%list
    /\ onSubmit P w' = (Ok tt, with_message NoneSelected w').
Proof.
  intros Hne Q U.
  pose proof (prepared_silently P _ outs _ w1 Q) as [[_ [_ [_ [_ R]]]] _].
  cbn [requests with_message] in R.
  eexists. split.
  - rewrite onSubmit_stages, Q by exact Hne.
    unfold try_catch. unfold bind at 1.
    rewrite (upload_success _ w1 U). reflexivity.
  - cbn [selectedFiles previews requests with_previews with_selectedFiles
         with_message with_request].
    split; [reflexivity|]. split; [reflexivity|].
    split; [unfold messageEl; cbn [messages with_previews with_selectedFiles
                                   with_message with_request];
            apply last_last|].
    split; [now rewrite R|]. reflexivity.
Qed.

(** X18: when the files are prepared and the request does not succeed
    (a status outside the 200s, a falsy [success], an empty or unparsable
    body, no connection), the selection and the previews are kept for
    another try and the page ends on an error: the [error] text of the
    body when it has one, a fixed text otherwise. *)
Theorem failed_upload_keeps_selection (w w1 : World) (outs : list File) :
  selectedFiles w <> [] ->
  prepareCompressedFiles P (selectedFiles w) (with_message ("", "") w)
  = (Ok outs, w1) ->
  upload_succeeds (send P upload_url (formOf outs)) = false ->
  exists w',
    onSubmit P w = (Ok tt, w')
    /\ selectedFiles w' = selectedFiles w
    /\ previews w' = previews w
    /\ messageEl w'
       = (failure_text (send P upload_url (formOf outs)), "error")
    /\ requests w' = (requests w ++ [formOf outs])%list.
Proof.
  intros Hne Q U.
  pose proof (prepared_silently P _ outs _ w1 Q)
    as [[S [_ [_ [Pv R]]]] _].
  cbn [selectedFiles previews requests with_message] in S, Pv, R.
  destruct (upload_failure (formOf outs) w1 U)
    as [e [w2 [E [M [S2 [P2 [_ R2]]]]]]].
  exists (with_console "Upload error:" w2). split.
  - rewrite onSubmit_stages, Q by exact Hne.
    unfold try_catch. unfold bind at 1. now rewrite E.
  - cbn [selectedFiles previews requests with_console].
    split; [congruence|]. split; [congruence|].
    split; [exact M|]. now rewrite R2, R.
Qed.


End Upload.

(* ================================================================== *)
(** * The further properties at concrete inputs *)

Module MoreExamples.

Import Demo.

(** The spec's scenario of a full disk, run through: the page ends on
    the server's own words and the selection is kept. *)
Example disk_full_shown :
  onSubmit full_disk (selecting [small])
  = (Ok tt,
     mkWorld [small] [("", ""); ("disk full", "error")] ["Upload error:"]
             [] [] [[mkFormEntry "photos" small "small.jpg"]] 0).
Proof. vm_compute. reflexivity. Qed.

(** ** The listener amid other events *)

Lemma selection_after_change_witness :
  exists w',
    onChange_amid platform [with_console "Upload error:"]
                  [iphone; scan; small] initial = (Ok true, w')
    /\ selectedFiles w' = [iphone; small].
Proof.
  destruct (selection_after_change platform [with_console "Upload error:"]
              [iphone; scan; small] initial)
    as [w' [E [S _]]].
  - constructor; [intros w; reflexivity | constructor].
  - exists w'. split; [exact E | exact S].
Defined.

Lemma no_valid_files_notice_witness :
  exists w',
    onChange_start [scan] initial = (Ok None, w')
    /\ selectedFiles w' = []
    /\ messageEl w' = NoValidFiles.
Proof.
  destruct (no_valid_files_notice platform [] [scan] initial) as [H _];
    [discriminate | constructor | constructor |].
  apply H. intros f [<-|[]]. reflexivity.
Defined.

Lemma previews_after_change_witness :
  exists w',
    onChange_amid platform [with_console "Upload error:"]
                  [iphone; unreadable; small] initial = (Ok true, w')
    /\ Forall2 (previewed_as platform) [iphone; small] (previews w').
Proof.
  destruct (previews_after_change platform [with_console "Upload error:"]
              [iphone; unreadable; small] initial)
    as [w' [E [F _]]].
  - constructor; [intros w; reflexivity | constructor].
  - exists w'. split; [exact E | exact F].
Defined.

Lemma unpreviewable_file_stays_selected_witness :
  exists w',
    onChange_amid platform [] [unreadable; small] initial = (Ok true, w')
    /\ In unreadable (selectedFiles w')
    /\ In (NoPreview unreadable) (messages w').
Proof.
  destruct (unpreviewable_file_stays_selected platform [] [unreadable; small]
              initial unreadable "ERR_LIBHEIF format not supported")
    as [_ [_ H]];
    [constructor | constructor | now left | reflexivity
    | vm_compute; discriminate | reflexivity | exact H].
Defined.

Lemma overlapping_changes_mix_witness :
  exists w',
    onChange_amid platform
      [fun w0 => snd (onChange platform (firstn 10 dozen) w0)] album initial
    = (Ok true, w')
    /\ selectedFiles w' = (firstn 10 dozen ++ tl album)%list.
Proof.
  destruct (overlapping_changes_mix platform album (firstn 10 dozen)
              (tl album) (photo "1.heic" "image/heic" 800 600) initial)
    as [w' [E S]].
  - reflexivity.
  - reflexivity.
  - intros f I. vm_compute in I.
    repeat (destruct I as [<-|I]; [reflexivity|]). contradiction.
  - exists w'. split; [exact E | exact S].
Defined.

(** The same overlap run through: ten HEIC photos are picked, and ten
    JPEG photos are picked while the first of them is being converted;
    nineteen files end up selected, and twenty handed to the preview
    reader. *)
Example nineteen_selected :
  let w := snd (onChange_amid platform
                  [fun w0 => snd (onChange platform (firstn 10 dozen) w0)]
                  album initial) in
  List.length (selectedFiles w) = 19%nat
  /\ List.length (previews w) = 20%nat
  /\ MAX_FILES < Z.of_nat (List.length (selectedFiles w)).
Proof. vm_compute. repeat split. Qed.


Lemma count_advisory_overwritten_witness :
  exists w',
    onChange platform dozen initial = (Ok tt, w')
    /\ (messageEl w' = TooManyFiles
        <-> forall f, In f (firstn 10 dozen) -> step_messages platform f = []).
Proof.
  apply (count_advisory_overwritten platform dozen initial). reflexivity.
Defined.

Lemma earlier_listener_agrees_witness :
  Plain.onChange [small; scan] initial
  = onChange platform [small; scan] initial.
Proof.
  apply (earlier_listener_agrees platform [small; scan] initial).
  intros f [<-|[<-|[]]]; reflexivity.
Defined.

Lemma earlier_preparation_agrees_witness :
  Plain.prepareCompressedFiles platform [small; landscape] initial
  = prepareCompressedFiles platform [small; landscape] initial.
Proof.
  apply (earlier_preparation_agrees platform [small; landscape] initial).
  repeat constructor.
Defined.

Lemma earlier_listener_rejects_heic_witness :
  (exists w', onChange platform [iphone] initial = (Ok tt, w')
              /\ selectedFiles w' = [iphone])
  /\ (exists w', Plain.onChange [iphone] initial = (Ok tt, w')
                 /\ selectedFiles w' = []
                 /\ messages w'
                    = (messages initial
                         ++ [("", ""); NotAnImage; NoValidFiles])%list).
Proof.
  apply (earlier_listener_rejects_heic platform iphone initial);
    [reflexivity | reflexivity | vm_compute; discriminate].
Defined.

Lemma normalisation_idempotent_witness :
  ensureImageCanLoad platform
    (mkFile "photo.jpg" "image/jpeg" 4 1700000000000 (picture 4032 3024))
    initial
  = (Ok (mkFile "photo.jpg" "image/jpeg" 4 1700000000000 (picture 4032 3024)),
     initial).
Proof.
  apply (normalisation_idempotent platform iphone
           (mkFile "photo.jpg" "image/jpeg" 4 1700000000000
                   (picture 4032 3024))
           initial (with_tick initial)).
  reflexivity.
Defined.

Lemma converted_file_name_witness :
  exists converted,
    ensureImageCanLoad platform typed_heic initial
    = (Ok converted, with_tick initial)
    /\ type converted = "image/jpeg"
    /\ name converted = "IMG_0043".
Proof.
  destruct (converted_file_name platform typed_heic initial
              (OneBlob (mkBlob 4 "image/jpeg" (picture 800 600)))
              eq_refl eq_refl)
    as [converted [E [T [_ N]]]].
  exists converted. split; [exact E|]. split; [exact T|].
  apply N; intros H.
  - apply test_heic in H. discriminate H.
  - apply test_heif in H. discriminate H.
Defined.

Lemma converted_file_content_witness :
  exists converted,
    ensureImageCanLoad platform iphone initial
    = (Ok converted, with_tick initial)
    /\ data converted = picture 4032 3024
    /\ size converted = 4.
Proof.
  destruct (converted_file_content platform iphone initial
              (OneBlob (mkBlob 4 "image/jpeg" (picture 4032 3024)))
              eq_refl eq_refl)
    as [converted [E [_ [H _]]]].
  exists converted. split; [exact E|].
  exact (H (mkBlob 4 "image/jpeg" (picture 4032 3024)) eq_refl).
Defined.

Lemma compress_errors_witness :
  untouched initial initial
  /\ ((isHeicFile broken = true
       /\ heic2any platform broken "image/jpeg" 0.9%float
          = inl "Failed to load image.")
      \/ "Failed to load image." = "Failed to read file."
      \/ "Failed to load image." = "Failed to load image."
      \/ "Failed to load image." = "Image compression failed.").
Proof.
  apply (compress_errors platform broken initial initial
           "Failed to load image.").
  reflexivity.
Defined.

Lemma resized_file_keeps_name_witness :
  name (mkFile "banner.png" "image/jpeg" 4 1700000000000 (picture 1920 640))
  = name (photo "banner.png" "image/png" 3000 1000).
Proof.
  apply (resized_file_keeps_name platform
           (photo "banner.png" "image/png" 3000 1000)
           (mkFile "banner.png" "image/jpeg" 4 1700000000000
                   (picture 1920 640))
           initial
           (snd (compressImage platform
                   (photo "banner.png" "image/png" 3000 1000) initial)));
    vm_compute; reflexivity.
Defined.

Lemma successful_preparation_is_silent_witness :
  untouched initial
    (snd (prepareCompressedFiles platform [small; landscape] initial))
  /\ messageEl
       (snd (prepareCompressedFiles platform [small; landscape] initial))
     = messageEl initial
  /\ List.length
       [small;
        mkFile "landscape.jpg" "image/jpeg" 4 1700000000000
               (picture 1920 1280)]
     = List.length [small; landscape]
  /\ Forall (fun out => isHeicFile out = false)
            [small;
             mkFile "landscape.jpg" "image/jpeg" 4 1700000000000
                    (picture 1920 1280)].
Proof.
  apply (successful_preparation_is_silent platform [small; landscape]).
  vm_compute. reflexivity.
Defined.

Lemma later_files_not_processed_witness :
  prepareCompressedFiles platform ([small] ++ broken :: [landscape]) initial
  = (Throw "Failed to load image.",
     with_message NotProcessed (with_console "Compression error:" initial)).
Proof.
  apply (later_files_not_processed platform [small] [small] broken
           initial initial initial "Failed to load image.");
    [reflexivity|].
  apply DecodeFailed with broken; reflexivity.
Defined.

Lemma successful_upload_clears_selection_witness :
  exists w',
    onSubmit platform (selecting [small]) = (Ok tt, w')
    /\ selectedFiles w' = []
    /\ previews w' = []
    /\ messageEl w' = Uploaded
    /\ requests w'
       = (requests (selecting [small]) ++ [formOf [small]])%list
    /\ onSubmit platform w' = (Ok tt, with_message NoneSelected w').
Proof.
  apply (successful_upload_clears_selection platform (selecting [small])
           (with_message ("", "") (selecting [small])) [small]);
    [discriminate | reflexivity | reflexivity].
Defined.

Lemma failed_upload_keeps_selection_witness :
  exists w',
    onSubmit full_disk (selecting [small]) = (Ok tt, w')
    /\ selectedFiles w' = [small]
    /\ messageEl w' = ("disk full", "error").
Proof.
  destruct (failed_upload_keeps_selection full_disk (selecting [small])
              (with_message ("", "") (selecting [small])) [small])
    as [w' [O [S [_ [M _]]]]];
    [discriminate | reflexivity | reflexivity |].
  exists w'. split; [exact O|]. split; [exact S | exact M].
Defined.

End MoreExamples.
